(* ===== verification/_CoqProject ===== *)
-Q . S2P
Prelude.v
Dict.v
PyStr.v
BinWriter.v
State.v
Interner.v
Parser.v
Merge.v
Encoder.v
Output.v
Asm.v
