(* ===== verification/Prelude.v ===== *)
(** * ReflectC merge tool: a verification development

    ** The program

    [src/merge/merge.py] is run after compilation.  It finds the
    [*.reflection.dat] descriptor files of a build tree, reads them oldest
    first, and merges the type records they declare (base types, structs,
    unions, enums) into one table keyed by name, in which a later
    declaration of a name replaces the earlier one where it stands.  Every
    name is interned in one string volume.  The table is then numbered and
    written, with the volume, as the binary file [reflection.dat], whose
    every size, offset and identifier has the arch width of the run, and as
    an assembly file that holds the same bytes.

    The parts of the program and the files that model them:

    - [Prelude] (this file): the exceptions that escape the program as the
      type [pyerror], the monad [result] that threads them ([Ok], [Raise],
      [bind] with the notation [x <- m ;; k]), the slice assignment of a
      bytearray ([splice]) with its laws, and the tactics and hint
      databases of the development.
    - [Dict]: Python's insertion-ordered dict as an association list
      ([dict_get], [dict_set], [dict_pop]); assigning to a present key
      keeps the key where it is.
    - [PyStr]: [str.split], [str.strip], [str.join], [str.splitlines] and
      [int] on strings of 8-bit characters.
    - [BinWriter]: [class BinWriter] (lines 15-54), method by method, with
      [struct.pack_into] for the formats the program uses; the abstract
      writer [Log] and the refinement between the two; runs of writes as
      lists of items.
    - [State]: the globals (lines 11-13) and the locals of the file loop
      (lines 78-80) as the record [State]; records and fields as records
      of options; the commands.
    - [Interner]: the three lines that intern a string (134-136 and their
      three copies) as [intern], and the layout of the volume.
    - [Parser]: the body of the loop over the files (lines 78-187):
      [flush_current_field_data], [flush_current_data], the command
      dispatch [exec] with [exec_arch], [parse_line], [parse_lines],
      [parse_content]; the invariant [inv] of the states a run reaches.
    - [Merge]: [parse_reflection_files] (lines 57-76): the stable sort by
      modification time and the loop over the files, a file that cannot be
      read being skipped.
    - [Encoder]: the first half of [write_reflection_dat]: the identifiers
      (lines 193-197) as [assign_ids] and the loop that writes the records
      (lines 215-253) as [write_types], with the back-patch of each field
      count; the reference encoding [types_items] in which the count
      comes first.
    - [Output]: [write_reflection_dat] up to the bytes of
      [reflection.dat] (lines 190-258) and [main] (lines 292-304).
    - [Asm]: the text of [reflection.dat.S] (lines 260-289) as
      [asm_text], and a reader of its byte literals.

    ** How the model corresponds to the code

    Each function of the program is one definition with the function's
    name.  Global and nonlocal variables are the fields of [State], and a
    function that assigns them takes a state and returns one.  A call that
    may raise returns a [result]; [try]/[except] blocks are case analyses
    on it ([int_or_zero], [exec_arch], [parse_file]).  A Python dict with a
    fixed set of keys is a record whose fields are options, so that
    ["name" in d] and [d.get("size", 0)] are what they are in the code.
    Integers are unbounded ([Z]) as in Python; they meet a machine width
    only in [pack_into], which raises outside the range of its format.
    Byte arrays are lists of bytes, and the little-endian packing is
    coqutil's [le_split].

    ** What the theorems show

    - Byte writer: every method refines the append-only log
      ([binwriter_refines_log]); [write_arch_size] on each branch: result,
      overflow, range error, and the round trip through [unpack].
    - Interner: interning is idempotent and gives each string the offset at
      which the finished file holds it ([intern_idempotent],
      [intern_offset]).
    - Parser and merge: the invariant [inv] holds of every state a run
      reaches ([parse_reflection_files_inv]); a record declared again
      replaces the earlier one in place ([flush_current_data_override],
      [flush_current_data_new]); the files are taken in a stable order by
      time and unreadable ones are skipped
      ([sorted_by_mtime_stable_sort], [parse_reflection_files_skips]); a
      line is its first word and the other words ([parse_line_words],
      [parse_line_strip]).
    - Encoder: the table written with placeholders and back-patches is the
      reference encoding ([write_types_refines]) and is written whenever it
      fits ([write_types_total]); the count of a record is the number of
      its encoded fields ([write_fields_count]); identifiers are 1..N in
      table order ([assign_ids_sequential]), stable under further merges
      ([merge_keeps_ids]), and references resolve to them
      ([ref_id_resolves]).
    - Output: the layout of the file for the arch widths 4 and 8
      ([write_reflection_dat_layout]), name offsets lead to their strings
      ([name_offset_resolves]), the encoder fails on a write only
      ([write_reflection_dat_safe]) and returns when everything fits
      ([write_reflection_dat_total]); the errors that can stop a run
      ([main_safe]) and the run of [main] on an example
      ([main_spec_example]).
    - Assembly mirror: the literals of the text, read in their order, are
      the bytes of the binary file ([write_reflection_files_mirror]); the
      text of thirteen bytes ([asm_text_example]).
    - Behaviour that differs from what the documentation of the program
      says: the identifier of a record with the empty name is skipped
      ([assign_ids_gap]), a later [arch] command replaces the width
      ([exec_arch_last_wins]), a negative value under a width other than 8
      raises ([write_arch_size_negative]), no input file and a string
      before [arch] stop the program ([main_no_files],
      [intern_before_arch]); runs that surprise
      ([arch_minus_one_resets_volume], [arch_two_overflows],
      [field_command_leaks], [alias_on_base]).

    ** Bounds

    No definition needs fuel: every loop of the program is a loop over a
    list.  The two large buffers have 1000000 bytes in the program
    ([BUFFER_SIZE]); the definitions that allocate them take the size as
    the section variable [size], so the theorems hold for every size, and
    the examples run with 4096 bytes.  The theorems on the layout assume
    the arch width 4 or 8; the invariant assumes a width other than -1, the
    value that stands for "no width yet" in the program.

    ** What is not modelled

    The JSON dump (lines 199-201), which nothing reads; the file
    system ([glob], [getmtime], [open]), whose result is the input of
    [parse_reflection_files]: a list of files with their times and texts;
    the messages printed; characters above 127 in the classes of [PyStr];
    the generator of synthetic descriptors
    [src/examples/benchmark/gen_synthetic.py]. *)

From Stdlib Require Import ZArith String Ascii List Lia.
From stdpp Require Import prelude strings.
From coqutil Require Import Byte Word.LittleEndianList.

(** ** Exceptions and the result monad *)

(** The exceptions that escape the functions of [merge.py].  Each constructor
    is one Python exception class; [KeyError] and [NameError] carry the key
    or the global name that was missing. *)
Inductive pyerror : Type :=
| BufferOverflow
| StructError
| KeyError (k : string)
| NameError (n : string)
| ValueError
| MissingArguments.

#[export] Instance pyerror_eq_dec : EqDecision pyerror.
Proof. solve_decision. Defined.

(** A computation either returns a value or raises. *)
Inductive result (A : Type) : Type :=
| Ok (a : A)
| Raise (e : pyerror).
Arguments Ok {A} a.
Arguments Raise {A} e.

#[export] Instance result_eq_dec `{EqDecision A} : EqDecision (result A).
Proof. solve_decision. Defined.

Definition bind {A B : Type} (m : result A) (f : A -> result B) : result B :=
  match m with
  | Ok a => f a
  | Raise e => Raise e
  end.

Definition rmap {A B : Type} (f : A -> B) (m : result A) : result B :=
  match m with
  | Ok a => Ok (f a)
  | Raise e => Raise e
  end.

(** [from_key e o] is the value of a lookup that raises [e] when the key
    is missing. *)
Definition from_key {A : Type} (e : pyerror) (o : option A) : result A :=
  match o with
  | Some a => Ok a
  | None => Raise e
  end.

(** [is_ok m] holds when [m] returned. *)
Definition is_ok {A : Type} (m : result A) : Prop :=
  match m with
  | Ok _ => True
  | Raise _ => False
  end.

#[export] Instance is_ok_dec {A : Type} (m : result A) : Decision (is_ok m).
Proof. destruct m; simpl; apply _. Defined.

(** Comparisons as the source writes them. *)
#[export] Instance nat_gt_dec (n m : nat) : Decision (n > m) := decide (m < n).
#[export] Instance Z_gt_dec (n m : Z) : Decision (n > m)%Z := Z_gt_dec n m.

Declare Scope py_scope.
Delimit Scope py_scope with py.
Notation "x <- m ;; k" := (bind m (fun x => k))
  (at level 100, m at next level, right associativity) : py_scope.
Notation "m ;;; k" := (bind m (fun _ => k))
  (at level 100, right associativity) : py_scope.
Open Scope py_scope.

(** ** Byte sequences *)

Abbreviation bytes := (list byte).

(** [splice l off new] is the list after the slice assignment
    [l[off:off+len(new)] = new], for a slice that lies inside [l]. *)
Definition splice {A : Type} (l : list A) (off : nat) (new : list A) : list A :=
  take off l ++ new ++ drop (off + length new) l.

(** ** Lemmas *)

Section ResultLemmas.
Context {A B : Type}.
Implicit Types (m : result A) (f : A -> result B).

Lemma bind_Ok_inv m f b :
  bind m f = Ok b -> exists a, m = Ok a /\ f a = Ok b.
Proof. destruct m; simpl; [eauto | discriminate]. Qed.

Lemma bind_Raise_inv m f e :
  bind m f = Raise e -> m = Raise e \/ exists a, m = Ok a /\ f a = Raise e.
Proof. destruct m; simpl; [eauto | intros [= ->]; auto]. Qed.

Lemma bind_is_ok m f :
  is_ok (bind m f) <-> exists a, m = Ok a /\ is_ok (f a).
Proof.
  destruct m; simpl; split; eauto.
  - intros (? & [= <-] & ?); done.
  - intros [].
  - intros (? & [=] & _).
Qed.

Lemma is_ok_Ok (m : result A) : is_ok m <-> exists a, m = Ok a.
Proof. destruct m; simpl; split; eauto; intros []; discriminate. Qed.

Lemma from_key_Ok e (o : option A) a : from_key e o = Ok a <-> o = Some a.
Proof. destruct o; simpl; split; congruence. Qed.
End ResultLemmas.

(** A filter that every element passes keeps the list. *)
Lemma filter_all {A : Type} (P : A -> Prop) `{!forall x, Decision (P x)}
    (l : list A) :
  (forall x, x ∈ l -> P x) -> filter P l = l.
Proof.
  induction l as [|x l IH]; intros Hall; [done|].
  rewrite filter_cons_True by (apply Hall; left).
  f_equal. apply IH. intros y Hy. apply Hall. by right.
Qed.

Lemma Forall_filter {A : Type} (P Q : A -> Prop) `{!forall x, Decision (Q x)}
    (l : list A) :
  Forall P l -> Forall P (filter Q l).
Proof.
  rewrite !Forall_forall. intros Hall x [_ Hx]%list_elem_of_filter. auto.
Qed.

Section SpliceLemmas.
Context {A : Type}.
Implicit Types (l new : list A) (off n : nat).

Lemma length_splice l off new :
  off + length new <= length l -> length (splice l off new) = length l.
Proof.
  intros H. unfold splice.
  rewrite !length_app, length_take, length_drop. lia.
Qed.

(** The bytes up to the end of the slice: what was before it, then the new
    bytes. *)
Lemma take_splice_end l off new :
  off + length new <= length l ->
  take (off + length new) (splice l off new) = take off l ++ new.
Proof.
  intros H. unfold splice. rewrite app_assoc.
  rewrite take_app_length'; [done|].
  rewrite length_app, length_take. lia.
Qed.

(** A slice assignment leaves what is before it unchanged. *)
Lemma take_splice_before l off new n :
  n <= off -> off <= length l -> take n (splice l off new) = take n l.
Proof.
  intros Hn Hl. unfold splice.
  rewrite take_app_le by (rewrite length_take; lia).
  rewrite take_take. f_equal. lia.
Qed.

(** A slice assignment leaves what is after it unchanged. *)
Lemma drop_splice_after l off new :
  off + length new <= length l ->
  drop (off + length new) (splice l off new) = drop (off + length new) l.
Proof.
  intros H. unfold splice. rewrite app_assoc.
  rewrite drop_app_length'; [done|].
  rewrite length_app, length_take. lia.
Qed.

(** A slice assignment inside a prefix is a slice assignment of the
    prefix: the shape of a back-patch. *)
Lemma take_splice_inside l off new n :
  off + length new <= n -> n <= length l ->
  take n (splice l off new) = splice (take n l) off new.
Proof.
  intros H1 H2. unfold splice.
  rewrite take_app_ge by (rewrite length_take; lia).
  rewrite length_take, take_take.
  replace (off `min` length l) with off by lia.
  replace (off `min` n) with off by lia. f_equal.
  rewrite take_app_ge by lia. f_equal.
  rewrite take_drop_commute. f_equal. f_equal. lia.
Qed.

(** Two adjacent slice assignments are one. *)
Lemma splice_splice l off new1 new2 :
  off + length new1 + length new2 <= length l ->
  splice (splice l off new1) (off + length new1) new2 =
  splice l off (new1 ++ new2).
Proof.
  intros H. unfold splice at 1.
  rewrite take_splice_end by lia.
  rewrite <- drop_drop, drop_splice_after by lia.
  rewrite drop_drop. unfold splice. rewrite length_app.
  replace (off + (length new1 + length new2))
    with (off + length new1 + length new2) by lia.
  by rewrite <- !app_assoc.
Qed.

(** Overwriting the head of a slice that was just assigned: the shape of a
    back-patch. *)
Lemma splice_overwrite l off old new rest :
  length new = length old ->
  off + length old + length rest <= length l ->
  splice (splice l off (old ++ rest)) off new = splice l off (new ++ rest).
Proof.
  intros Hlen H.
  assert (off + length (old ++ rest) <= length l) by (rewrite length_app; lia).
  unfold splice at 1.
  rewrite take_splice_before by lia.
  rewrite Hlen, <- drop_drop.
  replace (drop off (splice l off (old ++ rest)))
    with ((old ++ rest) ++ drop (off + length (old ++ rest)) l).
  - rewrite <- app_assoc, drop_app_length.
    unfold splice. rewrite !length_app, Hlen. by rewrite <- app_assoc.
  - unfold splice. rewrite drop_app_length'; [done|].
    rewrite length_take. lia.
Qed.

Lemma splice_nil l off : splice l off [] = l.
Proof. unfold splice. simpl. by rewrite Nat.add_0_r, take_drop. Qed.

Lemma splice_app_l l1 l2 off new :
  off + length new <= length l1 ->
  splice (l1 ++ l2) off new = splice l1 off new ++ l2.
Proof.
  intros H. unfold splice.
  rewrite take_app_le by lia. rewrite drop_app_le by lia.
  by rewrite <- !app_assoc.
Qed.

Lemma splice_at_end l1 old new :
  length old = length new ->
  splice (l1 ++ old) (length l1) new = l1 ++ new.
Proof.
  intros H. unfold splice.
  rewrite take_app_length. f_equal.
  rewrite drop_app_ge by lia.
  rewrite drop_ge by lia. by rewrite app_nil_r.
Qed.
End SpliceLemmas.

(** ** Automation *)

(** [inv_ok] decomposes the hypotheses that say a sequence of calls returned:
    every [bind m f = Ok b] becomes [m = Ok a] and [f a = Ok b]. *)
Ltac inv_ok :=
  repeat match goal with
  | H : bind _ _ = Ok _ |- _ =>
      let a := fresh "a" in
      let Ha := fresh "Ha" in
      apply bind_Ok_inv in H; destruct H as (a & Ha & H)
  | H : Ok _ = Ok _ |- _ => injection H as H; try subst
  | H : Raise _ = Ok _ |- _ => discriminate H
  | H : Ok _ = Raise _ |- _ => discriminate H
  | H : from_key _ _ = Ok _ |- _ => apply from_key_Ok in H
  | u : unit |- _ => destruct u
  end.

(** [rewrite_ok] replaces every call whose result is known by its result. *)
Ltac rewrite_ok :=
  repeat match goal with
  | H : ?m = Ok _ |- context [?m] => rewrite H; simpl
  | H : ?o = Some _ |- context [from_key _ ?o] => rewrite H; simpl
  end.

(** [rewrite_ok_in H] does the same in the hypothesis [H]. *)
Ltac rewrite_ok_in H :=
  repeat match goal with
  | E : ?m = Ok _ |- _ => rewrite E in H; simpl in H
  | E : ?o = Some _ |- _ =>
      match type of H with
      | context [from_key _ o] => rewrite E in H; simpl in H
      end
  end.

(** [raise_cases] finds which call of a sequence raised. *)
Ltac raise_cases :=
  repeat match goal with
  | H : bind _ _ = Raise _ |- _ =>
      let a := fresh "a" in
      let Ha := fresh "Ha" in
      apply bind_Raise_inv in H; destruct H as [H | (a & Ha & H)]
  | H : Ok _ = Raise _ |- _ => discriminate H
  end.

(** [by_compute] proves a decidable proposition that holds by evaluating
    its decision procedure. *)
Ltac by_compute := apply (bool_decide_unpack _); vm_compute; reflexivity.

(** [split_guards] splits on every [decide] of the goal and of the
    hypotheses and clears the arithmetic contradictions. *)
Ltac split_guards :=
  repeat (case_decide; simpl in *; try lia; try discriminate; try done).

Create HintDb reflect discriminated.
#[export] Hint Resolve length_splice : reflect.
Create Rewrite HintDb lengths.
#[export] Hint Rewrite length_le_split : lengths.
#[export] Hint Rewrite @length_app @length_take @length_drop
  @length_replicate @length_splice using lia : lengths.
