(* ===== verification/Dict.v ===== *)
(** * Insertion-ordered dictionaries

    [type_name_map] of [src/merge/merge.py] is a Python [dict] whose
    iteration order the program observes: identifiers are handed out in the
    order [items()] yields the records.  A Python dict iterates in insertion
    order, and assigning to a key that is present replaces the value without
    moving the key.  This file models such a dict as an association list with
    distinct keys and proves the laws the merge and the encoder rely on. *)

From Stdlib Require Import List Lia.
From stdpp Require Import prelude.
From S2P Require Import Prelude.

(** A dict with keys [K] and values [V], in insertion order. *)
Abbreviation dict K V := (list (K * V)).

Section Dict.
Context {K V : Type} `{EqDecision K}.

(** [d.get(k)] *)
Fixpoint dict_get (d : dict K V) (k : K) : option V :=
  match d with
  | [] => None
  | (k', v) :: d' => if decide (k = k') then Some v else dict_get d' k
  end.

(** [k in d] *)
Definition dict_mem (d : dict K V) (k : K) : Prop := is_Some (dict_get d k).

(** [d[k] = v]: the value is replaced where the key stands, or the pair is
    appended. *)
Fixpoint dict_set (d : dict K V) (k : K) (v : V) : dict K V :=
  match d with
  | [] => [(k, v)]
  | (k', v') :: d' =>
      if decide (k = k') then (k, v) :: d' else (k', v') :: dict_set d' k v
  end.

(** [d.pop(k, None)], for its effect on [d]. *)
Fixpoint dict_pop (d : dict K V) (k : K) : dict K V :=
  match d with
  | [] => []
  | (k', v') :: d' =>
      if decide (k = k') then d' else (k', v') :: dict_pop d' k
  end.

(** [list(d.keys())] and [list(d.values())] *)
Definition dict_keys (d : dict K V) : list K := d.*1.
Definition dict_values (d : dict K V) : list V := d.*2.

(** The keys of a dict are distinct. *)
Definition dict_wf (d : dict K V) : Prop := NoDup (dict_keys d).

#[export] Instance dict_mem_dec d k : Decision (dict_mem d k).
Proof. unfold dict_mem. apply _. Defined.

#[export] Instance dict_wf_dec d : Decision (dict_wf d).
Proof. unfold dict_wf. apply _. Defined.

Implicit Types (d : dict K V) (k : K) (v : V).

Lemma dict_get_None d k : dict_get d k = None <-> k ∉ dict_keys d.
Proof.
  induction d as [|[k' v'] d IH]; simpl.
  - split; [intros _; apply not_elem_of_nil | done].
  - rewrite not_elem_of_cons, <- IH. case_decide; intuition congruence.
Qed.

Lemma dict_key_elem_of d k v : (k, v) ∈ d -> k ∈ dict_keys d.
Proof. intros Hin. by apply (list_elem_of_fmap_2 fst) in Hin. Qed.

Lemma dict_mem_keys d k : dict_mem d k <-> k ∈ dict_keys d.
Proof.
  unfold dict_mem. rewrite <- not_eq_None_Some, dict_get_None.
  destruct (decide (k ∈ dict_keys d)); naive_solver.
Qed.

Lemma dict_get_set_same d k v : dict_get (dict_set d k v) k = Some v.
Proof.
  induction d as [|[k' v'] d IH]; simpl; repeat (case_decide; simpl); done.
Qed.

Lemma dict_get_set_diff d k k' v :
  k <> k' -> dict_get (dict_set d k v) k' = dict_get d k'.
Proof.
  intros Hne. induction d as [|[k0 v0] d IH]; simpl;
    repeat (case_decide; simpl); congruence.
Qed.

Lemma dict_get_set d k k' v :
  dict_get (dict_set d k v) k' =
  if decide (k = k') then Some v else dict_get d k'.
Proof.
  case_decide; [subst; apply dict_get_set_same | by apply dict_get_set_diff].
Qed.

(** Assigning to a key that is present keeps every key where it is. *)
Lemma dict_keys_set_mem d k v :
  dict_mem d k -> dict_keys (dict_set d k v) = dict_keys d.
Proof.
  rewrite dict_mem_keys. unfold dict_keys.
  induction d as [|[k' v'] d IH]; simpl.
  - by intros ?%elem_of_nil.
  - intros Hin. case_decide; simpl; [by subst|].
    f_equal. apply IH. by apply elem_of_cons in Hin as [|].
Qed.

(** Assigning to a new key appends it. *)
Lemma dict_keys_set_new d k v :
  ~ dict_mem d k -> dict_keys (dict_set d k v) = dict_keys d ++ [k].
Proof.
  rewrite dict_mem_keys. unfold dict_keys.
  induction d as [|[k' v'] d IH]; simpl; [done|].
  intros Hin. apply not_elem_of_cons in Hin as [? ?].
  case_decide; simpl; [done|]. f_equal. by apply IH.
Qed.

Lemma dict_set_new d k v : ~ dict_mem d k -> dict_set d k v = d ++ [(k, v)].
Proof.
  rewrite dict_mem_keys. unfold dict_keys.
  induction d as [|[k' v'] d IH]; simpl; [done|].
  intros Hin. apply not_elem_of_cons in Hin as [? ?].
  case_decide; simpl; [done|]. f_equal. by apply IH.
Qed.

Lemma dict_set_wf d k v : dict_wf d -> dict_wf (dict_set d k v).
Proof.
  unfold dict_wf. intros Hwf. destruct (decide (dict_mem d k)).
  - by rewrite dict_keys_set_mem.
  - rewrite dict_keys_set_new by done.
    apply NoDup_app. split_and!; [done| |apply NoDup_singleton].
    intros x Hx ->%list_elem_of_singleton. by apply dict_mem_keys in Hx.
Qed.

Lemma dict_set_length d k v :
  length (dict_set d k v) = if decide (dict_mem d k) then length d else S (length d).
Proof.
  case_decide as Hm.
  - rewrite <- (length_fmap fst (dict_set _ _ _)), <- (length_fmap fst d).
    fold (dict_keys (dict_set d k v)) (dict_keys d).
    by rewrite dict_keys_set_mem.
  - rewrite dict_set_new by done. rewrite length_app. simpl. lia.
Qed.

(** The position of a key. *)
Lemma dict_set_lookup_mem d k v i v0 :
  dict_wf d -> d !! i = Some (k, v0) -> dict_set d k v = <[i := (k, v)]> d.
Proof.
  unfold dict_wf, dict_keys. revert i.
  induction d as [|[k' v'] d IH]; intros i Hwf Hi; [done|].
  simpl in *. apply NoDup_cons in Hwf as [Hnin Hwf].
  destruct i as [|i]; simpl in *.
  - injection Hi as -> ->. by rewrite decide_True.
  - case_decide as Hk.
    + subst k'. exfalso. apply Hnin.
      eapply dict_key_elem_of, list_elem_of_lookup_2, Hi.
    + f_equal. by apply IH.
Qed.

Lemma dict_pop_get_same d k : dict_wf d -> dict_get (dict_pop d k) k = None.
Proof.
  unfold dict_wf, dict_keys.
  induction d as [|[k' v'] d IH]; simpl; [done|].
  intros [Hnin Hwf]%NoDup_cons. case_decide; simpl.
  - subst. by apply dict_get_None.
  - rewrite decide_False by done. by apply IH.
Qed.

Lemma dict_pop_get_diff d k k' :
  k <> k' -> dict_get (dict_pop d k) k' = dict_get d k'.
Proof.
  intros Hne. induction d as [|[k0 v0] d IH]; simpl; [done|].
  repeat (case_decide; simpl); congruence.
Qed.

Lemma dict_pop_absent d k : ~ dict_mem d k -> dict_pop d k = d.
Proof.
  rewrite dict_mem_keys. unfold dict_keys.
  induction d as [|[k' v'] d IH]; simpl; [done|].
  intros [? ?]%not_elem_of_cons. rewrite decide_False by done.
  f_equal. by apply IH.
Qed.

Lemma dict_pop_sublist d k : sublist (dict_pop d k) d.
Proof.
  induction d as [|[k' v'] d IH]; simpl; [done|].
  case_decide; [by apply sublist_cons | by apply sublist_skip].
Qed.

Lemma dict_pop_wf d k : dict_wf d -> dict_wf (dict_pop d k).
Proof.
  unfold dict_wf, dict_keys. intros Hwf.
  eapply sublist_NoDup; [done|]. apply fmap_sublist, dict_pop_sublist.
Qed.

Lemma dict_pop_filter d k :
  dict_wf d -> dict_pop d k = filter (fun kv => kv.1 <> k) d.
Proof.
  unfold dict_wf, dict_keys.
  induction d as [|[k' v'] d IH]; [done|].
  rewrite fmap_cons. intros [Hnin Hwf]%NoDup_cons. cbn [dict_pop].
  destruct (decide (k = k')) as [->|Hne].
  - rewrite filter_cons_False by (cbn; tauto).
    symmetry. apply filter_all. intros [k0 v0] Hin. cbn. intros ->.
    by apply Hnin, (dict_key_elem_of _ _ v0).
  - rewrite filter_cons_True by (cbn; congruence). f_equal. by apply IH.
Qed.

Lemma dict_get_elem_of d k v : dict_wf d -> dict_get d k = Some v <-> (k, v) ∈ d.
Proof.
  unfold dict_wf, dict_keys.
  induction d as [|[k' v'] d IH]; simpl.
  - intros _. split; [done | by intros ?%elem_of_nil].
  - intros [Hnin Hwf]%NoDup_cons. rewrite elem_of_cons. case_decide.
    + subst. split; [intros [= ->]; by left|].
      intros [[= ->]|Hin]; [done|].
      exfalso. by apply Hnin, (dict_key_elem_of _ _ v).
    + rewrite IH by done.
      split; [auto | intros [[= ? ?]|?]; [congruence | done]].
Qed.

Lemma dict_get_Some_elem_of d k v : dict_get d k = Some v -> (k, v) ∈ d.
Proof.
  induction d as [|[k' v'] d IH]; simpl; [done|].
  case_decide; [intros [= ->]; subst; left | intros ?; right; auto].
Qed.

Lemma dict_pop_Forall (P : K * V -> Prop) d k :
  Forall P d -> Forall P (dict_pop d k).
Proof.
  induction 1 as [|[k' v'] d HP Hd IH]; simpl; [done|].
  case_decide; [done | by constructor].
Qed.

(** Removing the key that stands after [d1]. *)
Lemma dict_pop_app d1 d2 k v :
  k ∉ dict_keys d1 -> dict_pop (d1 ++ (k, v) :: d2) k = d1 ++ d2.
Proof.
  unfold dict_keys. induction d1 as [|[k' v'] d1 IH]; simpl.
  - intros _. by rewrite decide_True.
  - intros [? ?]%not_elem_of_cons. rewrite decide_False by done.
    f_equal. by apply IH.
Qed.

Lemma dict_keys_lookup d (i : nat) k :
  dict_keys d !! i = Some k <-> exists v, d !! i = Some (k, v).
Proof.
  unfold dict_keys. rewrite list_lookup_fmap. destruct (d !! i) as [[k' v']|].
  - simpl. split; [intros [= ->]; eauto | by intros (v & [= -> ->])].
  - simpl. split; [done | by intros (v & ?)].
Qed.

End Dict.


#[export] Hint Resolve dict_set_wf dict_pop_wf : reflect.
