(* ===== verification/PyStr.v ===== *)
(** * Python string operations

    The descriptor parser of [src/merge/merge.py] cuts a file into lines
    with [str.splitlines], a line into words with [str.strip] and
    [str.split], rebuilds the argument with [" ".join] and reads integers
    with [int].  This file models these built-ins on strings of 8-bit
    characters, for the characters below 128: a character at or above 128
    is never white space, a line boundary or a digit here, as is the case
    for the bytes of a UTF-8 encoded text that has none of the Unicode
    separators and digits outside ASCII. *)

From Stdlib Require Import ZArith String Ascii List Lia.
From stdpp Require Import prelude strings.
From S2P Require Import Prelude.

Local Open Scope string_scope.

(** ** Character classes *)

(** [str.isspace] on one character: tab, line feed, vertical tab, form feed,
    carriage return, the four separators 0x1c-0x1f and the space. *)
Definition isspace (c : ascii) : bool :=
  let n := nat_of_ascii c in
  bool_decide (9 <= n <= 13 \/ 28 <= n <= 31 \/ n = 32)%nat.

(** The line boundaries of [str.splitlines] below 128: line feed, vertical
    tab, form feed, carriage return and the separators 0x1c-0x1e. *)
Definition islinebreak (c : ascii) : bool :=
  let n := nat_of_ascii c in
  bool_decide (10 <= n <= 13 \/ 28 <= n <= 30)%nat.

Definition isdigit (c : ascii) : bool :=
  let n := nat_of_ascii c in bool_decide (48 <= n <= 57)%nat.

Definition digit_value (c : ascii) : Z := Z.of_nat (nat_of_ascii c) - 48.

(** ** [str.split()] and [str.strip()] *)

Definition cons_word (w : string) (ws : list string) : list string :=
  if decide (w = "") then ws else w :: ws.

(** [split_aux s] is the word that starts [s] (empty when [s] starts with
    white space) and the words after it. *)
Fixpoint split_aux (s : string) : string * list string :=
  match s with
  | "" => ("", [])
  | String c s' =>
      let (w, ws) := split_aux s' in
      if isspace c then ("", cons_word w ws) else (String c w, ws)
  end.

(** [s.split()]: the maximal runs of characters that are not white space. *)
Definition split (s : string) : list string :=
  let (w, ws) := split_aux s in cons_word w ws.

Fixpoint lstrip (s : string) : string :=
  match s with
  | "" => ""
  | String c s' => if isspace c then lstrip s' else s
  end.

(** [rstrip s] drops the white space [s] ends with. *)
Fixpoint rstrip (s : string) : string :=
  match s with
  | "" => ""
  | String c s' =>
      let r := rstrip s' in
      if isspace c && bool_decide (r = "") then "" else String c r
  end.

(** [s.strip()] *)
Definition strip (s : string) : string := rstrip (lstrip s).

(** [sep.join(parts)] *)
Definition join (sep : string) (parts : list string) : string :=
  String.concat sep parts.

(** ** [str.splitlines()] *)

(** The lines of [s]; a line boundary at the end of [s] starts no line, and
    a carriage return followed by a line feed is one boundary. *)
Fixpoint splitlines (s : string) : list string :=
  match s with
  | "" => []
  | String c s' =>
      if islinebreak c then
        match s' with
        | String c' s'' =>
            if bool_decide (c = "013"%char /\ c' = "010"%char)
            then "" :: splitlines s''
            else "" :: splitlines s'
        | "" => [""]
        end
      else
        match splitlines s' with
        | [] => [String c ""]
        | l :: ls => String c l :: ls
        end
  end.

(** ** [int()] *)

(** The value of a run of decimal digits in which single underscores may
    separate digits; [sep] tells that a digit must come next (at the start
    and after an underscore). *)
Fixpoint int_digits (acc : Z) (sep : bool) (s : string) : option Z :=
  match s with
  | "" => if sep then None else Some acc
  | String c s' =>
      if isdigit c then int_digits (10 * acc + digit_value c) false s'
      else if bool_decide (c = "_"%char) && negb sep then int_digits acc true s'
      else None
  end.

(** [int(s)]: optional white space around an optional sign and the digits;
    [None] stands for [ValueError]. *)
Definition int (s : string) : option Z :=
  match strip s with
  | String "+" d => int_digits 0 true d
  | String "-" d => Z.opp <$> int_digits 0 true d
  | d => int_digits 0 true d
  end.

(** A text given by its lines: the lines joined by line feeds. *)
Definition unlines (ls : list string) : string := join (String "010" "") ls.

(** ** Words *)

(** No character of [s] is white space. *)
Fixpoint no_space (s : string) : bool :=
  match s with
  | "" => true
  | String c s' => negb (isspace c) && no_space s'
  end.

(** A word: what [split] can return. *)
Definition word (w : string) : Prop := w <> "" /\ no_space w = true.

#[export] Instance word_dec w : Decision (word w).
Proof. unfold word. apply _. Defined.

(** ** Lemmas *)

Section Split.
Implicit Types (s w : string) (ws : list string) (c : ascii).

Lemma cons_word_empty ws : cons_word "" ws = ws.
Proof. done. Qed.

Lemma cons_word_word w ws : w <> "" -> cons_word w ws = w :: ws.
Proof. intros Hw. unfold cons_word. by rewrite decide_False. Qed.

Lemma split_cons_space c s : isspace c = true -> split (String c s) = split s.
Proof.
  intros Hc. unfold split. simpl. destruct (split_aux s) as [w ws].
  by rewrite Hc.
Qed.

Lemma split_lstrip s : split (lstrip s) = split s.
Proof.
  induction s as [|c s IH]; simpl; [done|].
  destruct (isspace c) eqn:Hc; [by rewrite split_cons_space|done].
Qed.

Lemma split_aux_rstrip s : split_aux (rstrip s) = split_aux s.
Proof.
  induction s as [|c s IH]; simpl; [done|].
  destruct (isspace c) eqn:Hc; simpl.
  - case_bool_decide as Hr; simpl.
    + rewrite <- IH, Hr. done.
    + by rewrite IH, Hc.
  - by rewrite IH, Hc.
Qed.

(** White space around a line is of no consequence to its words. *)
Lemma split_strip s : split (strip s) = split s.
Proof.
  unfold strip. rewrite <- (split_lstrip s). unfold split.
  by rewrite split_aux_rstrip.
Qed.

Lemma split_aux_word w s :
  no_space w = true ->
  split_aux (String.append w s) =
  (String.append w (split_aux s).1, (split_aux s).2).
Proof.
  induction w as [|c w IH]; simpl.
  - intros _. change (String.append "" s) with s. by destruct (split_aux s).
  - intros [Hc Hw]%andb_prop.
    change (String.append (String c w) s) with (String c (String.append w s)).
    change (String.append (String c w) (split_aux s).1)
      with (String c (String.append w (split_aux s).1)).
    simpl. rewrite (IH Hw). by destruct (isspace c).
Qed.

Lemma append_empty w : String.append w "" = w.
Proof.
  induction w as [|c w IH]; [done|].
  change (String.append (String c w) "") with (String c (String.append w "")).
  congruence.
Qed.

Lemma split_word_space w s :
  word w -> split (String.append w (String " " s)) = w :: split s.
Proof.
  intros [Hne Hw]. unfold split. rewrite split_aux_word by done. simpl.
  destruct (split_aux s) as [x xs]. simpl.
  by rewrite append_empty, cons_word_word.
Qed.

(** The words of words joined by single spaces are these words. *)
Lemma split_join ws : Forall word ws -> split (join " " ws) = ws.
Proof.
  induction 1 as [|w ws Hw Hws IH]; [done|].
  destruct ws as [|w' ws].
  - destruct Hw as [Hne Hw]. unfold split. simpl.
    rewrite <- (append_empty w), split_aux_word by done. simpl.
    by rewrite append_empty, cons_word_word.
  - change (join " " (w :: w' :: ws))
      with (String.append w (String " " (join " " (w' :: ws)))).
    by rewrite split_word_space, IH.
Qed.

End Split.
