(* ===== verification/BinWriter.v ===== *)
(** * The byte writer

    [class BinWriter] of [src/merge/merge.py] (lines 15-54): a byte array
    allocated once, a cursor, and width-typed writes that check the
    remaining capacity before they pack a value with [struct.pack_into].

    The file models [struct.pack_into] for the three formats the program
    uses, the class with each of its methods, an abstract specification of
    the class as a bounded append-only log, and the refinement between the
    two. *)

From Stdlib Require Import ZArith String List Lia.
From stdpp Require Import prelude.
From coqutil Require Import Byte Word.LittleEndianList.
From S2P Require Import Prelude.

(** ** [struct]: little-endian packing *)

(** The formats of the program: ["<I"], ["<q"] and ["<B"]. *)
Inductive format : Type := fmt_I | fmt_q | fmt_B.

Definition calcsize (f : format) : nat :=
  match f with fmt_I => 4 | fmt_q => 8 | fmt_B => 1 end.

(** The values a format packs; any other value raises [struct.error]. *)
Definition in_range (f : format) (v : Z) : Prop :=
  match f with
  | fmt_I => (0 <= v < 2 ^ 32)%Z
  | fmt_q => (- 2 ^ 63 <= v < 2 ^ 63)%Z
  | fmt_B => (0 <= v < 2 ^ 8)%Z
  end.

#[export] Instance in_range_dec f v : Decision (in_range f v).
Proof. destruct f; simpl; apply _. Defined.

(** [struct.pack_into(fmt, buf, off, v)]: the buffer with the packed value
    at [off]; [struct.error] when the value does not fit the format or the
    buffer is too short. *)
Definition pack_into (f : format) (buf : bytes) (off : nat) (v : Z)
  : result bytes :=
  if decide (off + calcsize f <= length buf) then
    if decide (in_range f v) then Ok (splice buf off (le_split (calcsize f) v))
    else Raise StructError
  else Raise StructError.

(** [struct.unpack_from]: the value of the [calcsize f] bytes [bs]. *)
Definition unpack (f : format) (bs : bytes) : Z :=
  match f with
  | fmt_q => ((le_combine bs + 2 ^ 63) mod 2 ^ 64 - 2 ^ 63)%Z
  | _ => le_combine bs
  end.

(** ** The class *)

Module BinWriter.

Record t : Type := mk { data : bytes; offset : nat; arch : Z }.

(** [__init__]: [bytearray(size)] raises [ValueError] on a negative size. *)
Definition init (size : Z) (arch : Z) : result t :=
  if decide (size < 0)%Z then Raise ValueError
  else Ok {| data := replicate (Z.to_nat size) Byte.x00;
             offset := 0; arch := arch |}.

Definition ensure_capacity (self : t) (extra : nat) : result unit :=
  if decide (offset self + extra > length (data self))
  then Raise BufferOverflow else Ok tt.

Definition write_uint32 (self : t) (value : Z) : result t :=
  ensure_capacity self 4 ;;;
  d <- pack_into fmt_I (data self) (offset self) value ;;
  Ok {| data := d; offset := offset self + 4; arch := arch self |}.

Definition write_int64 (self : t) (value : Z) : result t :=
  ensure_capacity self 8 ;;;
  d <- pack_into fmt_q (data self) (offset self) value ;;
  Ok {| data := d; offset := offset self + 8; arch := arch self |}.

Definition write_uint8 (self : t) (value : Z) : result t :=
  ensure_capacity self 1 ;;;
  d <- pack_into fmt_B (data self) (offset self) value ;;
  Ok {| data := d; offset := offset self + 1; arch := arch self |}.

Definition write_bool (self : t) (value : bool) : result t :=
  write_uint8 self (if value then 1 else 0)%Z.

Definition write_c_string (self : t) (s : string) : result t :=
  let encoded := list_byte_of_string s in
  ensure_capacity self (length encoded + 1) ;;;
  write_uint8 {| data := splice (data self) (offset self) encoded;
                 offset := offset self + length encoded;
                 arch := arch self |} 0.

Definition write_arch_size (self : t) (value : Z) : result t :=
  if decide (arch self = 8%Z) then write_int64 self value
  else write_uint32 self value.

(** ** Views of a writer *)

(** What a writer has produced: [self.data[:self.offset]]. *)
Definition written (self : t) : bytes := take (offset self) (data self).

Definition capacity (self : t) : nat := length (data self).

(** The cursor never leaves the array. *)
Definition wf (self : t) : Prop := offset self <= capacity self.

#[export] Instance wf_dec self : Decision (wf self).
Proof. unfold wf. apply _. Defined.

(** [put self bs] stores [bs] at the cursor and advances it: what every
    write does once its checks have passed. *)
Definition put (self : t) (bs : bytes) : t :=
  {| data := splice (data self) (offset self) bs;
     offset := offset self + length bs;
     arch := arch self |}.

(** The format [write_arch_size] packs with. *)
Definition arch_format (a : Z) : format :=
  if decide (a = 8%Z) then fmt_q else fmt_I.

(** A fixed-width write as one case analysis: overflow first, then the
    range of the value, then the bytes at the cursor. *)
Definition write_fmt (f : format) (self : t) (v : Z) : result t :=
  if decide (offset self + calcsize f > capacity self) then Raise BufferOverflow
  else if decide (in_range f v) then Ok (put self (le_split (calcsize f) v))
  else Raise StructError.

End BinWriter.

(** ** The abstract writer

    What the class promises its clients: an append-only byte log with a
    fixed number of bytes of room.  A write of [n] bytes raises
    [BufferOverflow] when less than [n] bytes of room are left, and never
    changes the bytes already in the log. *)
Module Log.

Record t : Type := mk { out : bytes; room : nat }.

Definition append (l : t) (bs : bytes) : result t :=
  if decide (length bs > room l) then Raise BufferOverflow
  else Ok {| out := out l ++ bs; room := room l - length bs |}.

Definition write (f : format) (l : t) (v : Z) : result t :=
  if decide (calcsize f > room l) then Raise BufferOverflow
  else if decide (in_range f v) then append l (le_split (calcsize f) v)
  else Raise StructError.

Definition write_string (l : t) (s : string) : result t :=
  append l (list_byte_of_string s ++ [Byte.x00]).

End Log.

(** The log a writer implements. *)
Definition abstraction (w : BinWriter.t) : Log.t :=
  {| Log.out := BinWriter.written w;
     Log.room := BinWriter.capacity w - BinWriter.offset w |}.

(** ** Runs of writes *)

(** The width of a value to write: the arch width, or a fixed format. *)
Inductive width : Type := WArch | WFmt (f : format).

(** A value to write with its width. *)
Definition item : Type := width * Z.

Definition width_format (a : Z) (wd : width) : format :=
  match wd with
  | WArch => BinWriter.arch_format a
  | WFmt f => f
  end.

(** The method that writes an item. *)
Definition write_item (w : BinWriter.t) (i : item) : result BinWriter.t :=
  match i.1 with
  | WArch => BinWriter.write_arch_size w i.2
  | WFmt fmt_I => BinWriter.write_uint32 w i.2
  | WFmt fmt_q => BinWriter.write_int64 w i.2
  | WFmt fmt_B => BinWriter.write_uint8 w i.2
  end.

Fixpoint write_items (items : list item) (w : BinWriter.t)
  : result BinWriter.t :=
  match items with
  | [] => Ok w
  | i :: items' => w1 <- write_item w i ;; write_items items' w1
  end.

(** The item fits its format, for the arch width [a]. *)
Definition item_ok (a : Z) (i : item) : Prop :=
  in_range (width_format a i.1) i.2.

#[export] Instance item_ok_dec a i : Decision (item_ok a i).
Proof. unfold item_ok. apply _. Defined.

(** The bytes of a run of items, for the arch width [a]. *)
Fixpoint pack_items (a : Z) (items : list item) : bytes :=
  match items with
  | [] => []
  | i :: items' =>
      le_split (calcsize (width_format a i.1)) i.2 ++ pack_items a items'
  end.

(** The two ways a write fails: no room, or a value its format rejects. *)
Definition write_error (e : pyerror) : Prop :=
  e = BufferOverflow \/ e = StructError.

Import BinWriter.

(** ** Packing *)

Section Packing.
Implicit Types (f : format) (v : Z) (bs buf : bytes).

Lemma calcsize_pos f : 0 < calcsize f.
Proof. destruct f; simpl; lia. Qed.

Lemma two_pow_calcsize f : (2 ^ (Z.of_nat (calcsize f) * 8))%Z =
  match f with fmt_I => 2 ^ 32 | fmt_q => 2 ^ 64 | fmt_B => 2 ^ 8 end%Z.
Proof. by destruct f. Qed.

(** Unpacking what was packed gives the value back, for every value the
    format accepts. *)
Lemma unpack_le_split f v :
  in_range f v -> unpack f (le_split (calcsize f) v) = v.
Proof.
  intros Hr. unfold unpack.
  destruct f; rewrite le_combine_split, two_pow_calcsize; simpl in Hr.
  - apply Z.mod_small; lia.
  - rewrite Zplus_mod_idemp_l. rewrite Z.mod_small; lia.
  - apply Z.mod_small; lia.
Qed.

Lemma pack_into_length f buf off v buf' :
  pack_into f buf off v = Ok buf' -> length buf' = length buf.
Proof.
  unfold pack_into. intros H. split_guards. inv_ok.
  apply length_splice. by rewrite length_le_split.
Qed.
End Packing.

(** ** The writer's operations, branch by branch *)

Section Writes.
Implicit Types (self : BinWriter.t) (v : Z) (bs : bytes) (f : format).

Lemma write_uint32_eq self v : write_uint32 self v = write_fmt fmt_I self v.
Proof.
  unfold write_uint32, write_fmt, ensure_capacity, pack_into, put, capacity.
  simpl. by split_guards.
Qed.

Lemma write_int64_eq self v : write_int64 self v = write_fmt fmt_q self v.
Proof.
  unfold write_int64, write_fmt, ensure_capacity, pack_into, put, capacity.
  simpl. by split_guards.
Qed.

Lemma write_uint8_eq self v : write_uint8 self v = write_fmt fmt_B self v.
Proof.
  unfold write_uint8, write_fmt, ensure_capacity, pack_into, put, capacity.
  simpl. by split_guards.
Qed.

Lemma write_arch_size_eq self v :
  write_arch_size self v = write_fmt (arch_format (arch self)) self v.
Proof.
  unfold write_arch_size, arch_format.
  case_decide; [apply write_int64_eq | apply write_uint32_eq].
Qed.

Lemma write_bool_eq self (b : bool) :
  write_bool self b =
  if decide (offset self + 1 > capacity self) then Raise BufferOverflow
  else Ok (put self [if b then Byte.x01 else Byte.x00]).
Proof.
  unfold write_bool. rewrite write_uint8_eq. unfold write_fmt. simpl.
  case_decide; [done|]. destruct b; by split_guards.
Qed.

Lemma put_put self bs1 bs2 :
  offset self + length bs1 + length bs2 <= capacity self ->
  put (put self bs1) bs2 = put self (bs1 ++ bs2).
Proof.
  intros H. unfold put, capacity in *. simpl.
  rewrite splice_splice by lia. f_equal. rewrite length_app. lia.
Qed.

Lemma write_c_string_eq self (s : string) :
  write_c_string self s =
  if decide (offset self + (length (list_byte_of_string s) + 1) > capacity self)
  then Raise BufferOverflow
  else Ok (put self (list_byte_of_string s ++ [Byte.x00])).
Proof.
  unfold write_c_string, ensure_capacity. fold (capacity self).
  case_decide; [done|]. simpl.
  change (mk _ _ _) with (put self (list_byte_of_string s)).
  rewrite write_uint8_eq. unfold write_fmt. simpl.
  assert (capacity (put self (list_byte_of_string s)) = capacity self) as ->.
  { unfold capacity, put. simpl. apply length_splice. unfold capacity in *. lia. }
  split_guards. f_equal. apply put_put. simpl. lia.
Qed.
End Writes.

(** ** What [put] does to the views *)

Section Put.
Implicit Types (self : BinWriter.t) (bs : bytes).

Lemma put_written self bs :
  offset self + length bs <= capacity self ->
  written (put self bs) = written self ++ bs.
Proof. intros H. unfold written, put. simpl. by apply take_splice_end. Qed.

Lemma put_capacity self bs :
  offset self + length bs <= capacity self ->
  capacity (put self bs) = capacity self.
Proof. intros H. unfold capacity, put. simpl. by apply length_splice. Qed.

Lemma put_offset self bs : offset (put self bs) = offset self + length bs.
Proof. done. Qed.

Lemma put_arch self bs : arch (put self bs) = arch self.
Proof. done. Qed.

Lemma put_wf self bs :
  offset self + length bs <= capacity self -> wf (put self bs).
Proof. intros H. unfold wf. rewrite put_capacity by done. simpl. lia. Qed.

(** The bytes after the cursor are not touched. *)
Lemma put_rest self bs :
  offset self + length bs <= capacity self ->
  drop (offset (put self bs)) (data (put self bs)) =
  drop (offset self + length bs) (data self).
Proof. intros H. unfold put. simpl. by apply drop_splice_after. Qed.

Lemma written_length self : wf self -> length (written self) = offset self.
Proof. unfold wf, written, capacity. rewrite length_take. lia. Qed.
End Put.

#[export] Hint Rewrite put_offset put_arch : lengths.
#[export] Hint Rewrite put_capacity put_written using (simpl; lia) : lengths.
#[export] Hint Resolve put_wf : reflect.

(** ** Successful writes *)

Section Invariants.
Implicit Types (self : BinWriter.t) (v : Z) (bs : bytes) (f : format).

Lemma pack_into_Ok f buf off v d :
  pack_into f buf off v = Ok d <->
  off + calcsize f <= length buf /\ in_range f v /\
  d = splice buf off (le_split (calcsize f) v).
Proof.
  unfold pack_into. split.
  - intros H. split_guards. inv_ok. repeat split; [lia | done].
  - intros (? & ? & ->). by split_guards.
Qed.

Lemma write_fmt_Ok f self v self' :
  write_fmt f self v = Ok self' <->
  offset self + calcsize f <= capacity self /\ in_range f v /\
  self' = put self (le_split (calcsize f) v).
Proof.
  unfold write_fmt. split.
  - intros H. split_guards. inv_ok. repeat split; [lia | done].
  - intros (? & ? & ->). by split_guards.
Qed.

(** A write that returns leaves the cursor inside the array, the array at
    its size and the arch width as it was; the bytes written before are
    still there, followed by the packed value. *)
Lemma write_fmt_spec f self v self' :
  wf self -> write_fmt f self v = Ok self' ->
  wf self' /\ capacity self' = capacity self /\ arch self' = arch self /\
  offset self' = offset self + calcsize f /\
  written self' = written self ++ le_split (calcsize f) v.
Proof.
  intros Hwf (Hcap & Hr & ->)%write_fmt_Ok.
  assert (offset self + length (le_split (calcsize f) v) <= capacity self)
    by (rewrite length_le_split; lia).
  rewrite put_capacity, put_written, put_offset, put_arch, length_le_split by done.
  repeat split. by apply put_wf.
Qed.

Lemma write_c_string_spec self (s : string) self' :
  wf self -> write_c_string self s = Ok self' ->
  wf self' /\ capacity self' = capacity self /\ arch self' = arch self /\
  offset self' = offset self + length (list_byte_of_string s) + 1 /\
  written self' = written self ++ list_byte_of_string s ++ [Byte.x00].
Proof.
  intros Hwf. rewrite write_c_string_eq. case_decide; [done|]. intros [= <-].
  assert (offset self + length (list_byte_of_string s ++ [Byte.x00])
          <= capacity self) by (rewrite length_app; simpl; lia).
  rewrite put_capacity, put_written, put_offset, put_arch by done.
  rewrite length_app. simpl. repeat split; [by apply put_wf | lia].
Qed.

Lemma abstraction_put self bs :
  offset self + length bs <= capacity self ->
  abstraction (put self bs) =
  Log.mk (written self ++ bs) (capacity self - offset self - length bs).
Proof.
  intros H. unfold abstraction.
  rewrite put_written, put_capacity, put_offset by done. f_equal. lia.
Qed.

Lemma write_fmt_refines f self v :
  wf self ->
  rmap abstraction (write_fmt f self v) = Log.write f (abstraction self) v.
Proof.
  intros Hwf. unfold write_fmt, Log.write, Log.append, wf in *. simpl.
  rewrite length_le_split.
  split_guards. rewrite abstraction_put by (rewrite length_le_split; lia).
  by rewrite length_le_split.
Qed.

Lemma write_c_string_refines self (s : string) :
  wf self ->
  rmap abstraction (write_c_string self s) =
  Log.write_string (abstraction self) s.
Proof.
  intros Hwf. rewrite write_c_string_eq.
  unfold Log.write_string, Log.append, wf in *. simpl.
  rewrite length_app. simpl.
  split_guards. rewrite abstraction_put by (rewrite length_app; simpl; lia).
  by rewrite length_app.
Qed.
End Invariants.

(** ** The class refines the log *)

(** C15: every method of [BinWriter] implements the corresponding operation of
    the bounded append-only log: on a writer whose cursor is inside its
    array, a write returns exactly when the log's operation does, raises the
    same exception when it does not, and the writer it returns abstracts to
    the log the operation returns. *)
Theorem binwriter_refines_log (self : BinWriter.t) :
  wf self ->
  (forall v, rmap abstraction (write_uint32 self v)
             = Log.write fmt_I (abstraction self) v) /\
  (forall v, rmap abstraction (write_int64 self v)
             = Log.write fmt_q (abstraction self) v) /\
  (forall v, rmap abstraction (write_uint8 self v)
             = Log.write fmt_B (abstraction self) v) /\
  (forall b : bool, rmap abstraction (write_bool self b)
             = Log.write fmt_B (abstraction self) (if b then 1 else 0)%Z) /\
  (forall s, rmap abstraction (write_c_string self s)
             = Log.write_string (abstraction self) s) /\
  (forall v, rmap abstraction (write_arch_size self v)
             = Log.write (arch_format (arch self)) (abstraction self) v).
Proof.
  intros Hwf. repeat split; intros.
  - rewrite write_uint32_eq. by apply write_fmt_refines.
  - rewrite write_int64_eq. by apply write_fmt_refines.
  - rewrite write_uint8_eq. by apply write_fmt_refines.
  - unfold write_bool. rewrite write_uint8_eq. by apply write_fmt_refines.
  - by apply write_c_string_refines.
  - rewrite write_arch_size_eq. by apply write_fmt_refines.
Qed.

Lemma binwriter_refines_log_witness :
  let w := BinWriter.mk (replicate 6 Byte.x00) 2 4 in
  rmap abstraction (write_arch_size w 258)
  = Ok (Log.mk [Byte.x00; Byte.x00; Byte.x02; Byte.x01; Byte.x00; Byte.x00] 0).
Proof.
  intros w.
  rewrite (proj2 (proj2 (proj2 (proj2 (proj2
    (binwriter_refines_log w ltac:(unfold wf, capacity; simpl; lia))))))).
  reflexivity.
Defined.

(** C26: a write of an arch-width integer that returns has advanced the cursor
    by the width of the format, left the capacity and the arch width
    unchanged, kept the cursor inside the array, and appended the
    little-endian bytes of the value to what was written before. *)
Theorem write_arch_size_spec (self self' : BinWriter.t) (v : Z) :
  wf self -> write_arch_size self v = Ok self' ->
  wf self' /\ capacity self' = capacity self /\ arch self' = arch self /\
  offset self' = offset self + calcsize (arch_format (arch self)) /\
  written self' =
    written self ++ le_split (calcsize (arch_format (arch self))) v.
Proof. rewrite write_arch_size_eq. apply write_fmt_spec. Qed.

Lemma write_arch_size_spec_witness :
  let w := BinWriter.mk (replicate 8 Byte.x00) 0 8 in
  exists w', write_arch_size w (-2) = Ok w' /\ offset w' = 8 /\
    written w' = [Byte.xfe; Byte.xff; Byte.xff; Byte.xff;
                  Byte.xff; Byte.xff; Byte.xff; Byte.xff].
Proof.
  intros w. eexists. split; [reflexivity|].
  pose proof (write_arch_size_spec w _ (-2)
    ltac:(unfold wf, capacity; simpl; lia) eq_refl) as (_ & _ & _ & Ho & Hw).
  split; [exact Ho | exact Hw].
Defined.

(** C27: the capacity check comes first and is exact: a write of an arch-width
    integer raises [BufferOverflow] if and only if fewer bytes than the
    format needs are left after the cursor, whatever the value. *)
Theorem write_arch_size_overflow (self : BinWriter.t) (v : Z) :
  write_arch_size self v = Raise BufferOverflow <->
  offset self + calcsize (arch_format (arch self)) > capacity self.
Proof.
  rewrite write_arch_size_eq. unfold write_fmt.
  split; intros H; by split_guards.
Qed.

(** C29: with an arch width other than 8 the value is packed as an unsigned
    32-bit integer, so a negative value (an enumerator value, a size) does
    not wrap: when there is room for it, the write raises [struct.error]. *)
Theorem write_arch_size_negative (self : BinWriter.t) (v : Z) :
  arch self <> 8%Z -> (v < 0)%Z -> offset self + 4 <= capacity self ->
  write_arch_size self v = Raise StructError.
Proof.
  intros Ha Hv Hc. rewrite write_arch_size_eq. unfold write_fmt, arch_format.
  destruct (decide (arch self = 8%Z)); [done|]. by split_guards.
Qed.

Lemma write_arch_size_negative_witness :
  write_arch_size (BinWriter.mk (replicate 16 Byte.x00) 0 4) (-1)
  = Raise StructError.
Proof.
  apply write_arch_size_negative; [simpl; lia | lia | unfold capacity; simpl; lia].
Defined.

(** C28: what [write_arch_size] stores reads back: unpacking the bytes the
    write appended, in the format of the writer's arch width, gives the
    value that was written. *)
Theorem write_arch_size_unpack (self self' : BinWriter.t) (v : Z) :
  wf self -> write_arch_size self v = Ok self' ->
  unpack (arch_format (arch self))
         (drop (offset self) (written self')) = v.
Proof.
  intros Hwf H. pose proof H as (_ & _ & _ & _ & ->)%write_arch_size_spec; [|done].
  rewrite write_arch_size_eq in H. apply write_fmt_Ok in H as (_ & Hr & _).
  rewrite drop_app_length' by (symmetry; by apply written_length).
  by apply unpack_le_split.
Qed.

Lemma write_arch_size_unpack_witness :
  let w := BinWriter.mk (replicate 12 Byte.x00) 4 8 in
  exists w', write_arch_size w (-5) = Ok w' /\
    unpack fmt_q (drop 4 (written w')) = (-5)%Z.
Proof.
  intros w. eexists. split; [reflexivity|].
  apply (write_arch_size_unpack w _ (-5)); [unfold wf, capacity; simpl; lia | reflexivity].
Defined.

(** ** Runs of writes *)

Section Items.
Implicit Types (self w : BinWriter.t) (items : list item) (i : item).

Lemma put_nil self : put self [] = self.
Proof.
  destruct self as [d o a]. unfold put. simpl.
  by rewrite splice_nil, Nat.add_0_r.
Qed.

(** Packing over the first bytes of what was just stored is storing the
    new bytes in their place. *)
Lemma patch_put w z c body :
  length c = length z ->
  offset w + length z + length body <= capacity w ->
  mk (splice (data (put w (z ++ body))) (offset w) c)
     (offset (put w (z ++ body))) (arch w)
  = put w (c ++ body).
Proof.
  intros Hlen Hfit. unfold put, capacity in *. simpl.
  rewrite splice_overwrite by done. f_equal. rewrite !length_app. lia.
Qed.

Lemma write_item_eq w i :
  write_item w i = write_fmt (width_format (arch w) i.1) w i.2.
Proof.
  destruct i as [[|[]] v]; unfold write_item; simpl.
  - apply write_arch_size_eq.
  - apply write_uint32_eq.
  - apply write_int64_eq.
  - apply write_uint8_eq.
Qed.

Lemma pack_items_app a items1 items2 :
  pack_items a (items1 ++ items2) = pack_items a items1 ++ pack_items a items2.
Proof.
  induction items1 as [|i items1 IH]; simpl; [done|].
  by rewrite IH, app_assoc.
Qed.

(** A run of writes returns exactly when every value fits its format and
    the bytes fit the buffer; the writer is then the one that has stored all
    the bytes at once. *)
Lemma write_items_Ok items w w' :
  wf w ->
  write_items items w = Ok w' <->
  Forall (item_ok (arch w)) items /\
  offset w + length (pack_items (arch w) items) <= capacity w /\
  w' = put w (pack_items (arch w) items).
Proof.
  revert w. induction items as [|[wd v] items IH]; intros w Hwf; simpl.
  - rewrite put_nil. unfold wf in Hwf.
    split; [intros [= ->]; split_and!; [done|lia|done]|].
    by intros (_ & _ & ->).
  - rewrite Forall_cons, length_app, length_le_split, write_item_eq.
    simpl. split.
    + intros H. inv_ok. apply write_fmt_Ok in Ha as (Hc & Hr & ->).
      apply IH in H as (Hall & Hfit & ->);
        [|apply put_wf; rewrite length_le_split; lia].
      rewrite put_arch, put_offset, put_capacity, length_le_split in *
        by (rewrite length_le_split; lia).
      split_and!; [done | done | lia |].
      apply put_put. rewrite length_le_split. lia.
    + intros ((Hr & Hall) & Hfit & ->).
      rewrite (proj2 (write_fmt_Ok _ w v _)) by (split_and!; [lia | done | done]).
      simpl. apply IH; [apply put_wf; rewrite length_le_split; lia|].
      rewrite put_arch, put_offset, put_capacity, length_le_split
        by (rewrite length_le_split; lia).
      split_and!; [done | lia |].
      symmetry. apply put_put. rewrite length_le_split. lia.
Qed.

Lemma write_items_app items1 items2 w :
  write_items (items1 ++ items2) w =
  (w1 <- write_items items1 w ;; write_items items2 w1).
Proof.
  revert w. induction items1 as [|i items1 IH]; intros w; simpl; [done|].
  destruct (write_item w i); simpl; [apply IH | done].
Qed.

(** What a run of writes that returned has done to the views. *)
Lemma write_items_spec items w w' :
  wf w -> write_items items w = Ok w' ->
  wf w' /\ capacity w' = capacity w /\ arch w' = arch w /\
  offset w' = offset w + length (pack_items (arch w) items) /\
  written w' = written w ++ pack_items (arch w) items.
Proof.
  intros Hwf (Hall & Hfit & ->)%write_items_Ok; [|done].
  rewrite put_capacity, put_written by done.
  split_and!; [by apply put_wf | done..].
Qed.
Lemma in_range_0 f : in_range f 0.
Proof. destruct f; simpl; lia. Qed.

(** Writing a placeholder, the items after it, and then packing the value
    over the placeholder is writing the value before the items. *)
Lemma write_items_patch w items c w' :
  wf w ->
  (exists w2, write_items ((WArch, 0%Z) :: items) w = Ok w2 /\
     in_range (arch_format (arch w)) c /\
     w' = mk (splice (data w2) (offset w)
                     (le_split (calcsize (arch_format (arch w))) c))
             (offset w2) (arch w2)) <->
  write_items ((WArch, c) :: items) w = Ok w'.
Proof.
  intros Hwf. rewrite write_items_Ok by done.
  setoid_rewrite write_items_Ok; [|done].
  cbn [pack_items width_format fst snd]. setoid_rewrite Forall_cons.
  unfold item_ok at 1 3. cbn [width_format fst snd].
  setoid_rewrite length_app. setoid_rewrite length_le_split. split.
  - intros (w2 & ((_ & Hall) & Hfit & ->) & Hc & ->).
    split_and!; [done..|]. rewrite put_arch.
    apply patch_put; rewrite !length_le_split; [done | lia].
  - intros ((Hc & Hall) & Hfit & ->). eexists.
    split_and!; [apply in_range_0 | done..|]. rewrite put_arch.
    symmetry. apply patch_put; rewrite !length_le_split; [done | lia].
Qed.
(** A new writer. *)
Lemma init_Ok size a w :
  init size a = Ok w <->
  (0 <= size)%Z /\ w = mk (replicate (Z.to_nat size) Byte.x00) 0 a.
Proof.
  unfold init. case_decide; split.
  - done.
  - intros [? _]. lia.
  - intros [= <-]. split; [lia|done].
  - by intros [_ ->].
Qed.

Lemma init_spec size a w :
  init size a = Ok w ->
  wf w /\ offset w = 0 /\ arch w = a /\ written w = [] /\
  capacity w = Z.to_nat size.
Proof.
  intros [_ ->]%init_Ok. unfold wf, written, capacity. simpl.
  rewrite length_replicate. split_and!; [lia | done..].
Qed.

Lemma write_arch_size_item w v :
  write_arch_size w v = write_items [(WArch, v)] w.
Proof.
  simpl. unfold write_item. simpl. by destruct (write_arch_size w v).
Qed.

Lemma init_Raise size a e : init size a = Raise e -> e = ValueError.
Proof. unfold init. case_decide; by intros [= <-]. Qed.

(** What a new writer holds after a run of writes. *)
Lemma write_items_init size a items w0 w :
  init size a = Ok w0 -> write_items items w0 = Ok w ->
  Forall (item_ok a) items /\ written w = pack_items a items /\
  length (pack_items a items) <= Z.to_nat size /\ wf w.
Proof.
  intros (Hwf & Ho & Ha & Hw & Hc)%init_spec Hi.
  pose proof Hi as (Hall & Hfit & _)%write_items_Ok; [|done].
  apply write_items_spec in Hi as (? & _ & _ & _ & ->); [|done].
  rewrite Hw, Ha in *. split_and!; [done | done | lia | done].
Qed.

(** ** The errors of a write *)

Lemma write_fmt_Raise f w v e : write_fmt f w v = Raise e -> write_error e.
Proof.
  unfold write_fmt, write_error. repeat case_decide; intros [= <-]; auto.
Qed.

Lemma write_items_Raise items w e :
  write_items items w = Raise e -> write_error e.
Proof.
  revert w. induction items as [|i items IH]; intros w H; simpl in H.
  - discriminate.
  - rewrite write_item_eq in H. raise_cases; [by eapply write_fmt_Raise | eauto].
Qed.

Lemma pack_into_Raise f buf off v e :
  pack_into f buf off v = Raise e -> write_error e.
Proof.
  unfold pack_into, write_error. repeat case_decide; intros [= <-]; auto.
Qed.
End Items.

(** [write_raises] closes a goal [write_error e] from a write that raised
    [e]. *)
Ltac write_raises :=
  try congruence; unfold BinWriter.write_bool in *;
  rewrite ?write_arch_size_eq, ?write_uint32_eq, ?write_uint8_eq in *;
  by eapply write_fmt_Raise.
