(* ===== verification/State.v ===== *)
(** * The program's state

    The globals of [src/merge/merge.py] (lines 11-13 and the writer that the
    first [arch] command creates) and the locals of the loop over the lines
    of a file (lines 78-80), as one record; the records and fields the
    parser builds; the commands of a descriptor file.

    A record and a field are Python dicts with a fixed set of possible
    keys; each is a [Record] whose fields are options, [None] for a key that
    is absent.  The table and the string volume are dicts in insertion
    order. *)

From Stdlib Require Import ZArith String Ascii List Lia.
From stdpp Require Import prelude strings.
From S2P Require Import Prelude Dict BinWriter.

(** ** Data *)

(** The values of the ["type"] key. *)
Inductive type_kind : Type := Base | Enum | Struct | Union.

#[export] Instance type_kind_eq_dec : EqDecision type_kind.
Proof. solve_decision. Defined.

(** [current_field_data]: a field of a struct or union, or an enumerator. *)
Record FieldData : Type := mkField {
  f_name : option string;
  f_type : option string;
  f_offset : option Z;
  f_pdepth : option Z;
  f_arrsize : option Z;
  f_const : option bool;
  f_struct : option bool;
  f_value : option Z
}.

#[export] Instance FieldData_eq_dec : EqDecision FieldData.
Proof. solve_decision. Defined.

Definition empty_field : FieldData :=
  mkField None None None None None None None None.

(** [current_data]: a type record. *)
Record TypeData : Type := mkType {
  t_type : option type_kind;
  t_name : option string;
  t_size : option Z;
  t_fields : option (list FieldData);
  t_aliases : option (list string);
  t_id : option Z
}.

#[export] Instance TypeData_eq_dec : EqDecision TypeData.
Proof. solve_decision. Defined.

Definition empty_data : TypeData := mkType None None None None None None.

(** The record a block-start command creates. *)
Definition new_data (k : type_kind) : TypeData :=
  match k with
  | Base => mkType (Some Base) None None None None None
  | _ => mkType (Some k) None None (Some []) (Some []) None
  end.

(** The globals of the module and the locals of the loop body. *)
Record State : Type := mkState {
  arch : Z;
  type_name_map : dict string TypeData;
  global_string_volume : dict string Z;
  global_string_writer : option BinWriter.t;
  current_data : TypeData;
  current_field_data : FieldData;
  is_in_field_mode : bool
}.

(** The state when the module is loaded. *)
Definition initial_state : State :=
  mkState (-1) [] [] None empty_data empty_field false.

(** The commands of a descriptor file; [field] and [enumerator] are one
    command, and a word that is no command is ignored. *)
Inductive command : Type :=
| CArch | CStart (k : type_kind) | CField | CEk | CEv | CName | CAlias
| CType | COffset | CPdepth | CArrsize | CConst | CSize | CIsstruct
| CUnknown.

Definition command_of_string (w : string) : command :=
  if decide (w = "arch") then CArch
  else if decide (w = "base") then CStart Base
  else if decide (w = "enum") then CStart Enum
  else if decide (w = "struct") then CStart Struct
  else if decide (w = "union") then CStart Union
  else if decide (w = "field") then CField
  else if decide (w = "enumerator") then CField
  else if decide (w = "ek") then CEk
  else if decide (w = "ev") then CEv
  else if decide (w = "name") then CName
  else if decide (w = "alias") then CAlias
  else if decide (w = "type") then CType
  else if decide (w = "offset") then COffset
  else if decide (w = "pdepth") then CPdepth
  else if decide (w = "arrsize") then CArrsize
  else if decide (w = "const") then CConst
  else if decide (w = "size") then CSize
  else if decide (w = "isstruct") then CIsstruct
  else CUnknown.

(** ** Updates of one key *)

Definition set_f_name (f : FieldData) (v : string) : FieldData :=
  mkField (Some v) (f_type f) (f_offset f) (f_pdepth f) (f_arrsize f)
          (f_const f) (f_struct f) (f_value f).
Definition set_f_type (f : FieldData) (v : string) : FieldData :=
  mkField (f_name f) (Some v) (f_offset f) (f_pdepth f) (f_arrsize f)
          (f_const f) (f_struct f) (f_value f).
Definition set_f_offset (f : FieldData) (v : Z) : FieldData :=
  mkField (f_name f) (f_type f) (Some v) (f_pdepth f) (f_arrsize f)
          (f_const f) (f_struct f) (f_value f).
Definition set_f_pdepth (f : FieldData) (v : Z) : FieldData :=
  mkField (f_name f) (f_type f) (f_offset f) (Some v) (f_arrsize f)
          (f_const f) (f_struct f) (f_value f).
Definition set_f_arrsize (f : FieldData) (v : Z) : FieldData :=
  mkField (f_name f) (f_type f) (f_offset f) (f_pdepth f) (Some v)
          (f_const f) (f_struct f) (f_value f).
Definition set_f_const (f : FieldData) (v : bool) : FieldData :=
  mkField (f_name f) (f_type f) (f_offset f) (f_pdepth f) (f_arrsize f)
          (Some v) (f_struct f) (f_value f).
Definition set_f_struct (f : FieldData) (v : bool) : FieldData :=
  mkField (f_name f) (f_type f) (f_offset f) (f_pdepth f) (f_arrsize f)
          (f_const f) (Some v) (f_value f).
Definition set_f_value (f : FieldData) (v : Z) : FieldData :=
  mkField (f_name f) (f_type f) (f_offset f) (f_pdepth f) (f_arrsize f)
          (f_const f) (f_struct f) (Some v).

Definition set_t_name (t : TypeData) (v : string) : TypeData :=
  mkType (t_type t) (Some v) (t_size t) (t_fields t) (t_aliases t) (t_id t).
Definition set_t_size (t : TypeData) (v : Z) : TypeData :=
  mkType (t_type t) (t_name t) (Some v) (t_fields t) (t_aliases t) (t_id t).
Definition set_t_id (t : TypeData) (v : Z) : TypeData :=
  mkType (t_type t) (t_name t) (t_size t) (t_fields t) (t_aliases t) (Some v).
(** [t.setdefault("fields", []).append(f)] *)
Definition append_field (t : TypeData) (f : FieldData) : TypeData :=
  mkType (t_type t) (t_name t) (t_size t)
         (Some (default [] (t_fields t) ++ [f])) (t_aliases t) (t_id t).
(** [t.setdefault("aliases", []).append(a)] *)
Definition append_alias (t : TypeData) (a : string) : TypeData :=
  mkType (t_type t) (t_name t) (t_size t) (t_fields t)
         (Some (default [] (t_aliases t) ++ [a])) (t_id t).

Definition set_current_data (st : State) (t : TypeData) : State :=
  mkState (arch st) (type_name_map st) (global_string_volume st)
          (global_string_writer st) t (current_field_data st)
          (is_in_field_mode st).
Definition set_current_field_data (st : State) (f : FieldData) : State :=
  mkState (arch st) (type_name_map st) (global_string_volume st)
          (global_string_writer st) (current_data st) f
          (is_in_field_mode st).
Definition set_is_in_field_mode (st : State) (b : bool) : State :=
  mkState (arch st) (type_name_map st) (global_string_volume st)
          (global_string_writer st) (current_data st) (current_field_data st) b.
Definition set_type_name_map (st : State) (m : dict string TypeData) : State :=
  mkState (arch st) m (global_string_volume st)
          (global_string_writer st) (current_data st) (current_field_data st)
          (is_in_field_mode st).

(** [simpl_state] reduces the projections of a state that was built by the
    setters, and nothing else. *)
Ltac simpl_state :=
  cbn [arch type_name_map global_string_volume global_string_writer
       current_data current_field_data is_in_field_mode
       set_current_data set_current_field_data set_is_in_field_mode
       set_type_name_map] in *.
