(* ===== verification/Interner.v ===== *)
(** * The string interner

    The four commands of the parser that carry a string ([ek], [name],
    [alias], [type]) start with the same three lines of
    [src/merge/merge.py] (134-136, 144-146, 153-155, 158-160): a string that
    is not yet in [global_string_volume] is given an offset and written to
    the volume's writer.  This file models these lines as [intern] and proves
    what the encoder relies on: the volume's bytes are the interned strings
    in the order of their first use, each followed by a zero byte, and each
    offset is where its string starts, shifted by the size of the header. *)

From Stdlib Require Import ZArith String Ascii List Lia.
From stdpp Require Import prelude strings.
From coqutil Require Import Byte.
From S2P Require Import Prelude Dict BinWriter State.

(** The four commands that carry a string start with the same three lines
    (134-136, 144-146, 153-155, 158-160): a string that is not in the volume
    is given the offset of the writer's cursor plus twice the arch width,
    and is written to the volume with its terminator. *)
Definition intern (arg : string) (st : State) : result State :=
  match dict_get (global_string_volume st) arg with
  | Some _ => Ok st
  | None =>
      w <- from_key (NameError "global_string_writer") (global_string_writer st) ;;
      let vol := dict_set (global_string_volume st) arg
                   (Z.of_nat (BinWriter.offset w) + arch st * 2)%Z in
      w' <- BinWriter.write_c_string w arg ;;
      Ok (mkState (arch st) (type_name_map st) vol (Some w')
                  (current_data st) (current_field_data st)
                  (is_in_field_mode st))
  end.

#[global] Arguments intern : simpl never.

(** ** The layout of the volume *)

(** The bytes of a volume that holds the strings [ss] in this order. *)
Fixpoint volume_bytes (ss : list string) : bytes :=
  match ss with
  | [] => []
  | s :: ss' => list_byte_of_string s ++ Byte.x00 :: volume_bytes ss'
  end.

(** The dict of a volume that holds the strings [ss], the first of them
    [base] bytes after the start of the volume, for the arch width [a]. *)
Fixpoint volume_of (a : Z) (base : nat) (ss : list string) : dict string Z :=
  match ss with
  | [] => []
  | s :: ss' =>
      (s, (Z.of_nat base + a * 2)%Z)
        :: volume_of a (base + length (list_byte_of_string s) + 1) ss'
  end.

(** The volume and its writer agree: the strings are distinct, the writer
    holds them in the order of the dict, and the dict maps each to the place
    where it starts.  Before the first [arch] command there is no writer and
    the volume is empty. *)
Definition vol_ok (st : State) : Prop :=
  dict_wf (global_string_volume st) /\
  match global_string_writer st with
  | Some w =>
      BinWriter.wf w /\
      BinWriter.written w = volume_bytes (dict_keys (global_string_volume st)) /\
      global_string_volume st
        = volume_of (arch st) 0 (dict_keys (global_string_volume st))
  | None => global_string_volume st = []
  end.

(** The string [s] stands at offset [o] of the output file: [o] bytes into
    the header and the volume [vol], the bytes of [s] and a zero byte
    follow. *)
Definition string_at (header : nat) (vol : bytes) (o : Z) (s : string) : Prop :=
  exists pre post,
    vol = pre ++ list_byte_of_string s ++ Byte.x00 :: post /\
    o = Z.of_nat (header + length pre).

(** The two ways the parser stops: a string command before any [arch]
    command, or a volume that is full. *)
Definition parse_error (e : pyerror) : Prop :=
  e = NameError "global_string_writer" \/ e = BufferOverflow.

(** ** Lemmas on the layout *)

Section Layout.
Implicit Types (ss : list string) (s : string) (a : Z) (base : nat).

Lemma volume_bytes_app ss1 ss2 :
  volume_bytes (ss1 ++ ss2) = volume_bytes ss1 ++ volume_bytes ss2.
Proof.
  induction ss1 as [|s ss1 IH]; simpl; [done|].
  by rewrite IH, <- app_assoc.
Qed.

Lemma volume_of_app a base ss1 ss2 :
  volume_of a base (ss1 ++ ss2) =
  volume_of a base ss1 ++ volume_of a (base + length (volume_bytes ss1)) ss2.
Proof.
  revert base. induction ss1 as [|s ss1 IH]; intros base; simpl.
  - by rewrite Nat.add_0_r.
  - f_equal. rewrite IH. do 2 f_equal.
    rewrite length_app. simpl. lia.
Qed.

Lemma volume_of_keys a base ss : dict_keys (volume_of a base ss) = ss.
Proof.
  revert base. induction ss as [|s ss IH]; intros base; simpl; [done|].
  f_equal. apply IH.
Qed.

(** Every string of the volume stands at its offset. *)
Lemma volume_of_string_at a base ss s o :
  (s, o) ∈ volume_of a base ss ->
  exists pre post,
    volume_bytes ss = pre ++ list_byte_of_string s ++ Byte.x00 :: post /\
    o = (Z.of_nat (base + length pre) + a * 2)%Z.
Proof.
  revert base. induction ss as [|s' ss IH]; intros base; simpl.
  - by intros ?%elem_of_nil.
  - intros [[= -> ->]|Hin]%elem_of_cons.
    + exists [], (volume_bytes ss). split; [done|]. simpl. f_equal. lia.
    + apply IH in Hin as (pre & post & -> & ->).
      exists (list_byte_of_string s' ++ Byte.x00 :: pre), post.
      split; [by rewrite <- app_assoc|].
      rewrite length_app. simpl. f_equal. lia.
Qed.
End Layout.

(** ** What [intern] changes *)

Section Intern.
Implicit Types (st : State) (arg s : string).

(** [intern] touches the volume and its writer only. *)
Lemma intern_frame arg st st' :
  intern arg st = Ok st' ->
  arch st' = arch st /\ type_name_map st' = type_name_map st /\
  current_data st' = current_data st /\
  current_field_data st' = current_field_data st /\
  is_in_field_mode st' = is_in_field_mode st.
Proof.
  unfold intern. intros H. destruct (dict_get _ arg); inv_ok; done.
Qed.

Lemma intern_mem arg st st' :
  intern arg st = Ok st' -> dict_mem (global_string_volume st') arg.
Proof.
  unfold intern, dict_mem. intros H.
  destruct (dict_get _ arg) eqn:E; inv_ok; simpl; [by rewrite E|].
  by rewrite dict_get_set_same.
Qed.

(** A string that is in the volume keeps its offset. *)
Lemma intern_get arg st st' s o :
  intern arg st = Ok st' ->
  dict_get (global_string_volume st) s = Some o ->
  dict_get (global_string_volume st') s = Some o.
Proof.
  unfold intern. intros H Hs.
  destruct (dict_get _ arg) eqn:E; inv_ok; simpl; [done|].
  rewrite dict_get_set_diff; [done|]. intros ->. congruence.
Qed.

Lemma intern_mono arg st st' s :
  intern arg st = Ok st' ->
  dict_mem (global_string_volume st) s -> dict_mem (global_string_volume st') s.
Proof. intros H [o Ho]. exists o. by eapply intern_get. Qed.

(** A string that was interned is not written again. *)
Lemma intern_present arg st :
  dict_mem (global_string_volume st) arg -> intern arg st = Ok st.
Proof. unfold intern. by intros [o ->]. Qed.

(** Interning a new string appends it to the volume and to the dict. *)
Lemma intern_new arg st st' :
  ~ dict_mem (global_string_volume st) arg -> intern arg st = Ok st' ->
  exists w w',
    global_string_writer st = Some w /\ global_string_writer st' = Some w' /\
    BinWriter.write_c_string w arg = Ok w' /\
    global_string_volume st' =
      global_string_volume st
        ++ [(arg, (Z.of_nat (BinWriter.offset w) + arch st * 2)%Z)].
Proof.
  unfold intern. intros Hn H.
  destruct (dict_get _ arg) eqn:E; [destruct Hn; by eexists|].
  inv_ok. simpl. eexists _, _. split_and!; [done..|].
  by apply dict_set_new.
Qed.

Lemma intern_vol_ok arg st st' :
  vol_ok st -> intern arg st = Ok st' -> vol_ok st'.
Proof.
  intros Hok H. destruct (decide (dict_mem (global_string_volume st) arg)) as [Hm|Hm].
  { rewrite intern_present in H by done. by inv_ok. }
  pose proof (intern_frame _ _ _ H) as (Ha & _).
  destruct (intern_new _ _ _ Hm H) as (w & w' & Hw & Hw' & Hwr & Hvol).
  destruct Hok as (Hnd & Hlay). rewrite Hw in Hlay. destruct Hlay as (Hwf & Hby & Hof).
  apply BinWriter.write_c_string_spec in Hwr as (Hwf' & _ & _ & _ & Hby'); [|done].
  unfold vol_ok. rewrite Hw', Hvol, Ha.
  assert (dict_keys (global_string_volume st ++ [(arg, (Z.of_nat (BinWriter.offset w) + arch st * 2)%Z)])
          = dict_keys (global_string_volume st) ++ [arg]) as Hk
    by (unfold dict_keys; by rewrite fmap_app).
  rewrite Hk. split_and!.
  - unfold dict_wf. rewrite Hk. apply NoDup_app. split_and!; [done| |apply NoDup_singleton].
    intros x Hx ->%list_elem_of_singleton. by apply Hm, dict_mem_keys.
  - done.
  - rewrite Hby', Hby, volume_bytes_app. done.
  - rewrite volume_of_app, <- Hof. f_equal. simpl. do 2 f_equal.
    rewrite <- Hby, BinWriter.written_length by done. lia.
Qed.
End Intern.

(** ** The interner's contract *)

Section Contract.
Implicit Types (st : State) (arg s : string).

(** A string of a volume that agrees with its writer stands at its offset in
    the output file, behind a header of twice the arch width. *)
Lemma vol_ok_string_at st w s o :
  vol_ok st -> global_string_writer st = Some w -> (0 <= arch st)%Z ->
  dict_get (global_string_volume st) s = Some o ->
  string_at (Z.to_nat (arch st * 2)) (BinWriter.written w) o s.
Proof.
  intros (Hnd & Hlay) Hw Ha Hs. rewrite Hw in Hlay.
  destruct Hlay as (_ & Hby & Hof).
  apply dict_get_elem_of in Hs; [|done]. rewrite Hof in Hs.
  apply volume_of_string_at in Hs as (pre & post & Hpre & ->).
  exists pre, post. split; [by rewrite Hby|]. lia.
Qed.

(** A state with a fresh writer and an empty volume. *)
Lemma vol_ok_fresh a m w cd cfd mode :
  BinWriter.wf w -> BinWriter.offset w = 0 ->
  vol_ok (mkState a m [] (Some w) cd cfd mode).
Proof.
  intros Hwf Ho. split; [apply NoDup_nil_2|]. simpl. split_and!; [done| |done].
  unfold BinWriter.written. by rewrite Ho.
Qed.
End Contract.

(** What [intern] can raise. *)
Lemma intern_Raise arg st e : intern arg st = Raise e -> parse_error e.
Proof.
  unfold intern, parse_error. destruct (dict_get _ arg); [done|].
  intros H. raise_cases.
  - destruct (global_string_writer st); [done | injection H as <-; auto].
  - rewrite write_c_string_eq in H. case_decide; [|done].
    injection H as <-. auto.
Qed.

(** C10: interning is idempotent.  Once a string has been interned, interning
    it again changes nothing: the state, and with it the writer's cursor and
    the string's offset, is the one the first call returned, and the string
    is in the volume once. *)
Theorem intern_idempotent (arg : string) (st st1 : State) :
  vol_ok st -> intern arg st = Ok st1 ->
  intern arg st1 = Ok st1 /\
  is_Some (dict_get (global_string_volume st1) arg) /\
  NoDup (dict_keys (global_string_volume st1)).
Proof.
  intros Hok H. pose proof (intern_mem _ _ _ H) as Hm.
  split_and!; [by apply intern_present | done |].
  by destruct (intern_vol_ok _ _ _ Hok H).
Qed.

Lemma intern_idempotent_witness :
  let st := mkState 8 [] [] (Some (BinWriter.mk (replicate 8 Byte.x00) 0 8))
                    empty_data empty_field false in
  exists st1, intern "int" st = Ok st1 /\ intern "int" st1 = Ok st1 /\
    dict_get (global_string_volume st1) "int" = Some 16%Z.
Proof.
  intros st. eexists. split; [reflexivity|].
  split; [|reflexivity].
  refine (proj1 (intern_idempotent "int" st _ _ eq_refl)).
  apply vol_ok_fresh; [unfold BinWriter.wf, BinWriter.capacity; simpl; lia | done].
Defined.

(** C9: the offset [intern] gives a string is where the string stands in the
    output file.  In a state whose volume agrees with its writer and whose
    arch width is not negative, after [intern arg] the volume maps [arg] to
    an offset [o] such that, behind a header of twice the arch width, the
    bytes of the volume at [o] are the bytes of [arg] followed by a zero
    byte. *)
Theorem intern_offset (arg : string) (st st1 : State) :
  vol_ok st -> (0 <= arch st)%Z -> intern arg st = Ok st1 ->
  exists w o,
    global_string_writer st1 = Some w /\
    dict_get (global_string_volume st1) arg = Some o /\
    string_at (Z.to_nat (arch st * 2)) (BinWriter.written w) o arg.
Proof.
  intros Hok Ha H.
  pose proof (intern_vol_ok _ _ _ Hok H) as Hok1.
  pose proof (intern_frame _ _ _ H) as (Ha1 & _).
  destruct (intern_mem _ _ _ H) as [o Ho].
  destruct (global_string_writer st1) as [w|] eqn:Hw.
  - exists w, o. split_and!; [done..|]. rewrite <- Ha1.
    apply (vol_ok_string_at st1); [done | done | lia | done].
  - destruct Hok1 as (_ & Hnil). rewrite Hw in Hnil. by rewrite Hnil in Ho.
Qed.

Lemma intern_offset_witness :
  let st := mkState 4 [] [("a", 8%Z)]
              (Some (BinWriter.mk (Byte.x61 :: replicate 7 Byte.x00) 2 4))
              empty_data empty_field false in
  exists w o, rmap global_string_writer (intern "xy" st) = Ok (Some w) /\
    o = 10%Z /\
    string_at 8 (BinWriter.written w) o "xy".
Proof.
  intros st.
  assert (vol_ok st) as Hok.
  { split; [apply NoDup_singleton|]. simpl.
    split_and!; [unfold BinWriter.wf, BinWriter.capacity; simpl; lia | done..]. }
  destruct (intern_offset "xy" st _ Hok ltac:(simpl; lia) eq_refl)
    as (w & o & Hw & Ho & Hat).
  exists w, o. simpl in Hw, Ho. injection Hw as <-. injection Ho as <-.
  split_and!; [reflexivity | reflexivity | exact Hat].
Defined.

(** C33: a string command before any [arch] command stops the program:
    with no writer for the volume, interning a string that is not in the
    volume raises [NameError] for the global [global_string_writer]. *)
Theorem intern_before_arch (arg : string) (st : State) :
  global_string_writer st = None ->
  ~ dict_mem (global_string_volume st) arg ->
  intern arg st = Raise (NameError "global_string_writer").
Proof.
  intros Hw Hm. unfold intern. rewrite Hw.
  destruct (dict_get _ arg) eqn:E; [|done]. destruct Hm. by eexists.
Qed.

Lemma intern_before_arch_witness :
  intern "int" initial_state = Raise (NameError "global_string_writer").
Proof. apply intern_before_arch; [done|]. by intros [? [=]]. Defined.
