(* ===== verification/Parser.v ===== *)
(** * The descriptor parser

    The body of the loop over the files in [parse_reflection_files] of
    [src/merge/merge.py] (lines 78-187): the two flush functions, the
    command dispatch and the loop over the lines of one file.

    The file then states the invariant [inv] of the states the parser
    reaches and the order [table_le] on tables, proves that every command,
    line and file preserves them, and gives the effect of a flush on the
    table: a record declared again is replaced in place. *)

From Stdlib Require Import ZArith String Ascii List Lia.
From stdpp Require Import prelude strings.
From S2P Require Import Prelude Dict PyStr BinWriter State Interner.

(** ** The parser *)

Definition flush_current_field_data (st : State) : State :=
  if is_in_field_mode st then
    let st1 :=
      match f_name (current_field_data st) with
      | Some _ => set_current_data st
                    (append_field (current_data st) (current_field_data st))
      | None => st
      end in
    set_current_field_data (set_is_in_field_mode st1 false) empty_field
  else st.

Definition flush_current_data (st : State) : State :=
  let st1 := flush_current_field_data st in
  let st2 :=
    match t_type (current_data st1), t_name (current_data st1) with
    | Some _, Some name =>
        set_type_name_map st1
          (dict_set (type_name_map st1) name (current_data st1))
    | _, _ => st1
    end in
  set_current_data st2 empty_data.

#[global] Arguments flush_current_field_data : simpl never.
#[global] Arguments flush_current_data : simpl never.

(** [try: v = int(arg) except Exception: v = 0] *)
Definition int_or_zero (arg : string) : Z := default 0%Z (int arg).

Section Parser.
(** The size of the string volume's buffer; the program uses [BUFFER_SIZE]. *)
Variable size : Z.

(** The [arch] command (lines 106-115): nothing happens when the argument is
    no integer; the first integer, and every integer that follows a width of
    -1, makes a new writer and an empty volume. *)
Definition exec_arch (arg : string) (st : State) : State :=
  match int arg with
  | None => st
  | Some a =>
      if decide (arch st = -1)%Z then
        match BinWriter.init size a with
        | Ok w => mkState a (type_name_map st) [] (Some w)
                          (current_data st) (current_field_data st)
                          (is_in_field_mode st)
        | Raise _ => st
        end
      else mkState a (type_name_map st) (global_string_volume st)
                   (global_string_writer st) (current_data st)
                   (current_field_data st) (is_in_field_mode st)
  end.

(** One command with its argument (lines 106-185). *)
Definition exec (c : command) (arg : string) (st : State) : result State :=
  match c with
  | CArch => Ok (exec_arch arg st)
  | CStart k =>
      let st1 := flush_current_data (flush_current_field_data st) in
      Ok (set_current_data st1 (new_data k))
  | CField => Ok (set_is_in_field_mode (flush_current_field_data st) true)
  | CEk =>
      st1 <- intern arg st ;;
      Ok (set_current_field_data st1 (set_f_name (current_field_data st1) arg))
  | CEv =>
      Ok (set_current_field_data st
            (set_f_value (current_field_data st) (int_or_zero arg)))
  | CName =>
      st1 <- intern arg st ;;
      if is_in_field_mode st1
      then Ok (set_current_field_data st1
                 (set_f_name (current_field_data st1) arg))
      else Ok (set_current_data st1 (set_t_name (current_data st1) arg))
  | CAlias =>
      st1 <- intern arg st ;;
      Ok (set_current_data st1 (append_alias (current_data st1) arg))
  | CType =>
      st1 <- intern arg st ;;
      Ok (set_current_field_data st1 (set_f_type (current_field_data st1) arg))
  | COffset =>
      Ok (set_current_field_data st
            (set_f_offset (current_field_data st) (int_or_zero arg)))
  | CPdepth =>
      Ok (set_current_field_data st
            (set_f_pdepth (current_field_data st) (int_or_zero arg)))
  | CArrsize =>
      Ok (set_current_field_data st
            (set_f_arrsize (current_field_data st) (int_or_zero arg)))
  | CConst =>
      Ok (set_current_field_data st
            (set_f_const (current_field_data st) (bool_decide (arg = "true"))))
  | CSize =>
      Ok (set_current_data st (set_t_size (current_data st) (int_or_zero arg)))
  | CIsstruct =>
      Ok (set_current_field_data st
            (set_f_struct (current_field_data st) (bool_decide (arg = "true"))))
  | CUnknown => Ok st
  end.

(** One line (lines 101-105 and the dispatch): blank lines are skipped, the
    first word is the command and the other words, joined by single spaces,
    are its argument. *)
Definition parse_line (line : string) (st : State) : result State :=
  match split (strip line) with
  | [] => Ok st
  | command :: rest => exec (command_of_string command) (join " " rest) st
  end.

(** The loop over the lines (line 100). *)
Fixpoint parse_lines (content : list string) (st : State) : result State :=
  match content with
  | [] => Ok st
  | line :: content' => st1 <- parse_line line st ;; parse_lines content' st1
  end.

(** The body of the loop over the files, for one file that could be read
    (lines 78-80 and 100-187): the locals start empty, every line is
    executed, and what is in progress at the end of the file is flushed. *)
Definition parse_content (text : string) (st : State) : result State :=
  let st0 := set_is_in_field_mode
               (set_current_field_data (set_current_data st empty_data)
                                       empty_field) false in
  st1 <- parse_lines (splitlines text) st0 ;;
  Ok (flush_current_data (flush_current_field_data st1)).

End Parser.

#[global] Arguments exec_arch : simpl never.

(** ** The invariant of a run *)

(** The value an [arch] line carries, [None] for any other line and for an
    argument that is no integer. *)
Definition line_arch (line : string) : option Z :=
  match split (strip line) with
  | [] => None
  | command :: rest =>
      match command_of_string command with
      | CArch => int (join " " rest)
      | _ => None
      end
  end.

(** The lines of a text agree on the arch width [a]. *)
Definition arch_agrees (a : Z) (content : list string) : Prop :=
  Forall (fun line => line_arch line = None \/ line_arch line = Some a) content.

#[export] Instance arch_agrees_dec a content : Decision (arch_agrees a content).
Proof. unfold arch_agrees. apply _. Defined.

(** ** Example descriptor files *)

(** A base type and a struct with one field of this type, for the arch
    width 8. *)
Definition example_text : string :=
  unlines ["arch 8"; "base"; "name int_1"; "size 4";
           "struct"; "name struct_1"; "size 8";
           "field"; "name x"; "type int_1"; "offset 0"; "pdepth 0";
           "arrsize 0"; "const false"; "isstruct false"].

(** The struct declared again with another size and no field, and a new
    base type. *)
Definition example_override_text : string :=
  unlines ["arch 8"; "struct"; "name struct_1"; "size 16";
           "base"; "name char"; "size 1"].

(** An enum with a negative value, for the arch width 4. *)
Definition example_enum_text : string :=
  unlines ["arch 4"; "enum"; "name E"; "size 4";
           "enumerator"; "ek A"; "ev -1"].

Section Invariant.
Implicit Types (st : State) (vol : dict string Z) (f : FieldData) (t : TypeData).

(** A field that was committed has a name, and the name is interned. *)
Definition field_named vol f : Prop :=
  exists n, f_name f = Some n /\ dict_mem vol n.

(** The names a record in progress has are interned. *)
Definition data_ok vol t : Prop :=
  (forall n, t_name t = Some n -> dict_mem vol n) /\
  Forall (field_named vol) (default [] (t_fields t)).

(** A record of the table is keyed by its name and has a kind. *)
Definition entry_ok vol (kd : string * TypeData) : Prop :=
  t_name kd.2 = Some kd.1 /\ is_Some (t_type kd.2) /\ data_ok vol kd.2.

Definition names_ok st : Prop :=
  Forall (entry_ok (global_string_volume st)) (type_name_map st) /\
  data_ok (global_string_volume st) (current_data st) /\
  (forall n, f_name (current_field_data st) = Some n ->
             dict_mem (global_string_volume st) n).

(** What holds of every state the parser reaches from the initial state on
    descriptor files that agree on the arch width [a]. *)
Record inv (a : Z) (st : State) : Prop := mkInv {
  inv_vol : vol_ok st;
  inv_names : names_ok st;
  inv_table : dict_wf (type_name_map st);
  inv_arch : if global_string_writer st is Some _ then arch st = a
             else arch st = (-1)%Z
}.

End Invariant.

(** ** Lemmas: the table *)

Section Table.
Implicit Types (st : State) (m : dict string TypeData).

(** The table after a step: the keys it had are where they were, and they
    are still distinct. *)
Definition table_le m m' : Prop :=
  dict_keys m `prefix_of` dict_keys m' /\ (dict_wf m -> dict_wf m').

#[export] Instance table_le_preorder : PreOrder table_le.
Proof.
  split.
  - intros m. by split.
  - intros m1 m2 m3 [H1 H1'] [H2 H2']. split; [by etrans | auto].
Qed.

Lemma table_le_set m k v : table_le m (dict_set m k v).
Proof.
  split; [|apply dict_set_wf].
  destruct (decide (dict_mem m k)).
  - by rewrite dict_keys_set_mem.
  - rewrite dict_keys_set_new by done. by apply prefix_app_r.
Qed.

Lemma flush_current_field_data_table st :
  type_name_map (flush_current_field_data st) = type_name_map st.
Proof.
  unfold flush_current_field_data.
  destruct (is_in_field_mode st); [|done].
  by destruct (f_name (current_field_data st)).
Qed.

Lemma flush_current_data_table st :
  table_le (type_name_map st) (type_name_map (flush_current_data st)).
Proof.
  unfold flush_current_data. cbv zeta.
  destruct (t_type (current_data (flush_current_field_data st))),
    (t_name (current_data (flush_current_field_data st))); simpl;
    rewrite ?flush_current_field_data_table; try reflexivity.
  apply table_le_set.
Qed.
End Table.

(** ** Lemmas: the invariant *)

Section InvariantLemmas.
Implicit Types (st : State) (vol : dict string Z) (f : FieldData) (t : TypeData).

Lemma data_ok_mono vol vol' t :
  (forall n, dict_mem vol n -> dict_mem vol' n) -> data_ok vol t -> data_ok vol' t.
Proof.
  intros Hm [Hn Hf]. split; [auto|].
  eapply Forall_impl; [done|]. intros f (n & ? & ?). exists n. auto.
Qed.

Lemma names_ok_mono st st' :
  (forall n, dict_mem (global_string_volume st) n ->
             dict_mem (global_string_volume st') n) ->
  type_name_map st' = type_name_map st ->
  current_data st' = current_data st ->
  current_field_data st' = current_field_data st ->
  names_ok st -> names_ok st'.
Proof.
  intros Hm Ht Hd Hf (He & Hcd & Hcf). unfold names_ok. rewrite Ht, Hd, Hf.
  split_and!; [|by eapply data_ok_mono|auto].
  eapply Forall_impl; [done|]. intros kd (? & ? & ?).
  split_and!; [done..|by eapply data_ok_mono].
Qed.

Lemma data_ok_empty vol : data_ok vol empty_data.
Proof. split; [done | by apply Forall_nil]. Qed.

Lemma data_ok_new vol k : data_ok vol (new_data k).
Proof. destruct k; (split; [done | by apply Forall_nil]). Qed.

(** The locals may change to anything whose names are interned. *)
Lemma inv_locals a st cd cfd mode :
  inv a st -> data_ok (global_string_volume st) cd ->
  (forall n, f_name cfd = Some n -> dict_mem (global_string_volume st) n) ->
  inv a (mkState (arch st) (type_name_map st) (global_string_volume st)
                 (global_string_writer st) cd cfd mode).
Proof.
  intros [Hv (He & _ & _) Ht Ha] Hcd Hcf. by split.
Qed.

Lemma inv_set_table a st m :
  inv a st -> Forall (entry_ok (global_string_volume st)) m -> dict_wf m ->
  inv a (set_type_name_map st m).
Proof. intros [Hv (_ & Hcd & Hcf) Ht Ha] He Hwf. by split. Qed.

Lemma inv_intern a arg st st' :
  inv a st -> intern arg st = Ok st' -> inv a st'.
Proof.
  intros [Hv Hn Ht Ha] H.
  pose proof (intern_frame _ _ _ H) as (Harch & Htab & Hcd & Hcf & _).
  split.
  - by eapply intern_vol_ok.
  - eapply names_ok_mono; [|done..]. intros n. by apply (intern_mono arg).
  - by rewrite Htab.
  - rewrite Harch. destruct (decide (dict_mem (global_string_volume st) arg)) as [Hm|Hm].
    + rewrite intern_present in H by done. by inv_ok.
    + destruct (intern_new _ _ _ Hm H) as (w & w' & Hw & -> & _).
      by rewrite Hw in Ha.
Qed.

Lemma inv_flush_current_field_data a st :
  inv a st -> inv a (flush_current_field_data st).
Proof.
  intros Hinv. unfold flush_current_field_data.
  destruct (is_in_field_mode st); [|done].
  pose proof Hinv as [_ (_ & (Hcn & Hcf) & Hf) _ _].
  destruct (f_name (current_field_data st)) as [n|] eqn:En;
    (apply (inv_locals a st); [done| |done]); [|done].
  split; [done|]. simpl. apply Forall_app. split; [done|].
  apply Forall_singleton. exists n. auto.
Qed.

Lemma Forall_dict_set {V : Type} (P : string * V -> Prop) (d : dict string V) k v :
  Forall P d -> P (k, v) -> Forall P (dict_set d k v).
Proof.
  intros Hd Hkv. induction Hd as [|[k' v'] d Hx Hd IH]; simpl.
  - by apply Forall_singleton.
  - case_decide; apply Forall_cons; auto.
Qed.

Lemma inv_flush_current_data a st :
  inv a st -> inv a (flush_current_data st).
Proof.
  intros Hinv%inv_flush_current_field_data. unfold flush_current_data.
  cbv zeta. set (st1 := flush_current_field_data st) in *.
  pose proof Hinv as [_ (He & Hcd & Hcf) Ht _].
  destruct (t_type (current_data st1)) eqn:Et, (t_name (current_data st1)) eqn:En;
    try (apply (inv_locals a st1); [done | apply data_ok_empty | done]).
  apply (inv_locals a (set_type_name_map st1 _)); [|apply data_ok_empty|done].
  apply inv_set_table; [done| |by apply dict_set_wf].
  apply Forall_dict_set; [done|]. split_and!; simpl; [done | by eexists | done].
Qed.

Lemma inv_exec_arch size a arg st :
  a <> (-1)%Z -> (int arg = None \/ int arg = Some a) ->
  inv a st -> inv a (exec_arch size arg st).
Proof.
  intros Ha Harg Hinv. unfold exec_arch.
  destruct Harg as [-> | ->]; [done|].
  pose proof Hinv as [(Hnd & Hlay) Hn Ht Harch].
  case_decide as Hm1.
  - destruct (global_string_writer st) eqn:Hw; [congruence|].
    destruct (BinWriter.init size a) as [w|] eqn:Hi; [|done].
    unfold BinWriter.init in Hi. case_decide; inv_ok.
    unfold names_ok in Hn. rewrite Hlay in Hn. split; simpl; [|done..].
    apply vol_ok_fresh; [|done]. unfold BinWriter.wf. simpl. lia.
  - destruct (global_string_writer st) eqn:Hw; [|done]. subst a.
    by destruct st.
Qed.
End InvariantLemmas.

(** ** Lemmas: one command, one line, one file *)

Section Steps.
Variable size : Z.
Implicit Types (st : State) (c : command) (arg : string).

Lemma exec_arch_table arg st :
  type_name_map (exec_arch size arg st) = type_name_map st.
Proof.
  unfold exec_arch. destruct (int arg); [|done].
  case_decide; [|done]. by destruct (BinWriter.init size _).
Qed.

Lemma exec_table c arg st st' :
  exec size c arg st = Ok st' ->
  table_le (type_name_map st) (type_name_map st').
Proof.
  destruct c; cbn [exec]; intros H; inv_ok;
    try match goal with
    | H : intern _ _ = Ok _ |- _ =>
        apply intern_frame in H as (_ & Ht & _ & _ & Hm)
    end;
    try (destruct (is_in_field_mode _); inv_ok); simpl_state;
    rewrite ?exec_arch_table, ?flush_current_field_data_table, ?Ht;
    try reflexivity.
  etrans; [|apply flush_current_data_table].
  by rewrite flush_current_field_data_table.
Qed.

(** The locals after a command that interned its argument. *)
Lemma inv_named a arg st st' cd cfd mode :
  inv a st -> intern arg st = Ok st' ->
  (dict_mem (global_string_volume st') arg -> inv a st' ->
   data_ok (global_string_volume st') cd /\
   forall n, f_name cfd = Some n -> dict_mem (global_string_volume st') n) ->
  inv a (mkState (arch st') (type_name_map st') (global_string_volume st')
                 (global_string_writer st') cd cfd mode).
Proof.
  intros Hinv H Hloc.
  pose proof (inv_intern _ _ _ _ Hinv H) as Hinv'.
  destruct (Hloc (intern_mem _ _ _ H) Hinv').
  by apply inv_locals.
Qed.

Lemma inv_exec a c arg st st' :
  a <> (-1)%Z -> (c = CArch -> int arg = None \/ int arg = Some a) ->
  inv a st -> exec size c arg st = Ok st' -> inv a st'.
Proof.
  intros Ha Harg Hinv H.
  destruct c; cbn [exec] in H; inv_ok;
    try (destruct (is_in_field_mode _) eqn:?; inv_ok);
    try (eapply inv_named; [done..|];
         intros Hm [_ (_ & [Hcn Hcf] & Hf) _ _]; simpl;
         split; [split|]; simpl; try done;
         try (intros ? [= <-]; done);
         try (apply Forall_app; split; done)).
  - by apply inv_exec_arch; auto.
  - apply (inv_locals a (flush_current_data (flush_current_field_data st)));
      [ by apply inv_flush_current_data, inv_flush_current_field_data
      | apply data_ok_new | ].
    apply inv_flush_current_field_data in Hinv.
    apply inv_flush_current_data in Hinv. by destruct Hinv as [_ (_ & _ & ?) _ _].
  - apply inv_flush_current_field_data in Hinv.
    pose proof Hinv as [_ (_ & ? & ?) _ _]. by apply (inv_locals a _).
  - pose proof Hinv as [_ (_ & ? & ?) _ _]. by apply (inv_locals a st).
  - pose proof Hinv as [_ (_ & ? & ?) _ _]. by apply (inv_locals a st).
  - pose proof Hinv as [_ (_ & ? & ?) _ _]. by apply (inv_locals a st).
  - pose proof Hinv as [_ (_ & ? & ?) _ _]. by apply (inv_locals a st).
  - pose proof Hinv as [_ (_ & ? & ?) _ _]. by apply (inv_locals a st).
  - pose proof Hinv as [_ (_ & [? ?] & ?) _ _]. by apply (inv_locals a st).
  - pose proof Hinv as [_ (_ & ? & ?) _ _]. by apply (inv_locals a st).
  - done.
Qed.
End Steps.

Section Lines.
Variable size : Z.
Implicit Types (st : State) (line : string) (content : list string).

Lemma parse_line_table line st st' :
  parse_line size line st = Ok st' ->
  table_le (type_name_map st) (type_name_map st').
Proof.
  unfold parse_line. destruct (split (strip line)); [by intros [= <-]|].
  apply exec_table.
Qed.

Lemma parse_lines_table content st st' :
  parse_lines size content st = Ok st' ->
  table_le (type_name_map st) (type_name_map st').
Proof.
  revert st. induction content as [|line content IH]; simpl; intros st H; inv_ok.
  - done.
  - etrans; [by eapply parse_line_table | by apply IH].
Qed.

Lemma parse_content_table text st st' :
  parse_content size text st = Ok st' ->
  table_le (type_name_map st) (type_name_map st').
Proof.
  unfold parse_content. intros H. inv_ok.
  apply parse_lines_table in Ha. simpl_state.
  etrans; [done|]. etrans; [|apply flush_current_data_table].
  by rewrite flush_current_field_data_table.
Qed.

Lemma inv_parse_line a line st st' :
  a <> (-1)%Z -> (line_arch line = None \/ line_arch line = Some a) ->
  inv a st -> parse_line size line st = Ok st' -> inv a st'.
Proof.
  unfold parse_line, line_arch. intros Ha Harg Hinv.
  destruct (split (strip line)) as [|w rest]; [by intros [= <-]|].
  apply inv_exec; [done| |done]. intros Hc. by rewrite Hc in Harg.
Qed.

Lemma inv_parse_lines a content st st' :
  a <> (-1)%Z -> arch_agrees a content ->
  inv a st -> parse_lines size content st = Ok st' -> inv a st'.
Proof.
  intros Ha Hag. revert st.
  induction Hag as [|line content Hl Hag IH]; simpl; intros st Hinv H; inv_ok.
  - done.
  - apply (IH a0); [|done]. by eapply inv_parse_line.
Qed.

Lemma inv_parse_content a text st st' :
  a <> (-1)%Z -> arch_agrees a (splitlines text) ->
  inv a st -> parse_content size text st = Ok st' -> inv a st'.
Proof.
  unfold parse_content. intros Ha Hag Hinv H. inv_ok.
  apply inv_flush_current_data, inv_flush_current_field_data.
  eapply inv_parse_lines; [done..| |done].
  apply (inv_locals a st); [done | apply data_ok_empty | done].
Qed.

Lemma inv_initial a : inv a initial_state.
Proof.
  split; simpl; [|split_and!|apply NoDup_nil_2|done].
  - split; [apply NoDup_nil_2 | done].
  - apply Forall_nil_2.
  - apply data_ok_empty.
  - done.
Qed.
End Lines.

(** ** The errors of the parser *)

Section Errors.
Variable size : Z.
Implicit Types (st : State) (e : pyerror).

Lemma exec_Raise c arg st e : exec size c arg st = Raise e -> parse_error e.
Proof.
  destruct c; simpl; intros H; raise_cases; try done;
    try (by eapply intern_Raise); by destruct (is_in_field_mode _).
Qed.

Lemma parse_line_Raise line st e :
  parse_line size line st = Raise e -> parse_error e.
Proof.
  unfold parse_line. destruct (split (strip line)); [done|]. apply exec_Raise.
Qed.

Lemma parse_lines_Raise content st e :
  parse_lines size content st = Raise e -> parse_error e.
Proof.
  revert st. induction content as [|line content IH]; intros st H;
    simpl in H; [done|].
  raise_cases; [by eapply parse_line_Raise | eauto].
Qed.

Lemma parse_content_Raise text st e :
  parse_content size text st = Raise e -> parse_error e.
Proof.
  unfold parse_content. intros H. raise_cases. by eapply parse_lines_Raise.
Qed.

End Errors.

(** ** The merge of one record *)

Section Flush.
Variable size : Z.
Implicit Types (st : State) (name : string) (k : type_kind).

(** Committing the field in progress keeps the kind and the name of the
    record in progress. *)
Lemma flush_current_field_data_header st :
  t_type (current_data (flush_current_field_data st)) = t_type (current_data st)
  /\ t_name (current_data (flush_current_field_data st))
     = t_name (current_data st).
Proof.
  unfold flush_current_field_data. destruct (is_in_field_mode st); [|done].
  by destruct (f_name (current_field_data st)).
Qed.

(** What [flush_current_data] does to the table. *)
Lemma flush_current_data_map st :
  type_name_map (flush_current_data st) =
  match t_type (current_data st), t_name (current_data st) with
  | Some _, Some name =>
      dict_set (type_name_map st) name
               (current_data (flush_current_field_data st))
  | _, _ => type_name_map st
  end.
Proof.
  destruct (flush_current_field_data_header st) as [Ht Hn].
  unfold flush_current_data. cbv zeta. rewrite Ht, Hn.
  destruct (t_type (current_data st)), (t_name (current_data st));
    simpl_state; by rewrite ?flush_current_field_data_table.
Qed.

(** C5: a record that is declared again replaces the earlier one where it
    stands: when the record in progress has a kind and the name of the
    record at position [i] of the table, [flush_current_data] puts it at
    position [i], fields included, and changes nothing else in the table:
    the later definition wins and the position, hence the identifier, is
    the one of the first definition. *)
Theorem flush_current_data_override st (i : nat) name k old :
  dict_wf (type_name_map st) ->
  t_type (current_data st) = Some k -> t_name (current_data st) = Some name ->
  type_name_map st !! i = Some (name, old) ->
  type_name_map (flush_current_data st) =
    <[i := (name, current_data (flush_current_field_data st))]>
      (type_name_map st) /\
  dict_keys (type_name_map (flush_current_data st))
    = dict_keys (type_name_map st).
Proof.
  intros Hwf Ht Hn Hi. rewrite flush_current_data_map, Ht, Hn.
  split; [by eapply dict_set_lookup_mem|].
  apply dict_keys_set_mem, dict_mem_keys.
  eapply list_elem_of_lookup_2, dict_keys_lookup. eauto.
Qed.

(** C23: a record with a new name goes to the end of the table, and a
    record in progress that has no kind or no name is dropped: the table is
    unchanged. *)
Theorem flush_current_data_new st :
  (forall k name,
     t_type (current_data st) = Some k -> t_name (current_data st) = Some name ->
     ~ dict_mem (type_name_map st) name ->
     type_name_map (flush_current_data st) =
       type_name_map st
         ++ [(name, current_data (flush_current_field_data st))]) /\
  (t_type (current_data st) = None \/ t_name (current_data st) = None ->
   type_name_map (flush_current_data st) = type_name_map st).
Proof.
  rewrite flush_current_data_map. split.
  - intros k name -> -> Hm. by apply dict_set_new.
  - intros [-> | ->]; [done|]. by destruct (t_type _).
Qed.

(** C31: the arch width is not fixed by the first [arch] command: an
    [arch] command with an integer argument that comes after another
    replaces the width the encoder will use, and leaves the string volume
    and its writer, whose offsets assume the first width, as they are. *)
Theorem exec_arch_last_wins arg a st :
  int arg = Some a -> arch st <> (-1)%Z ->
  arch (exec_arch size arg st) = a /\
  global_string_volume (exec_arch size arg st) = global_string_volume st /\
  global_string_writer (exec_arch size arg st) = global_string_writer st /\
  type_name_map (exec_arch size arg st) = type_name_map st.
Proof.
  intros Hi Ha. unfold exec_arch. rewrite Hi. by rewrite decide_False.
Qed.

(** C24: a line is its command and its argument: a line made of a word
    and further words, separated by single spaces, executes the command the
    first word names with the other words, joined by single spaces, as its
    argument. *)
Theorem parse_line_words cmd args st :
  word cmd -> Forall word args ->
  parse_line size (join " " (cmd :: args)) st =
  exec size (command_of_string cmd) (join " " args) st.
Proof.
  intros Hc Ha. unfold parse_line.
  by rewrite split_strip, split_join by by constructor.
Qed.

(** C25: white space around a line and blank lines are ignored: a line is
    executed as the line without the white space around it, and a line with
    no word leaves the state as it is. *)
Theorem parse_line_strip line st :
  parse_line size (strip line) st = parse_line size line st /\
  (split line = [] -> parse_line size line st = Ok st).
Proof.
  unfold parse_line. rewrite !split_strip. split; [done|]. by intros ->.
Qed.

End Flush.

(** ** Witnesses *)

Lemma flush_current_data_override_witness :
  let old := mkType (Some Struct) (Some "S") (Some 4%Z) (Some []) (Some []) None in
  let new := mkType (Some Struct) (Some "S") (Some 8%Z) (Some []) (Some []) None in
  let int := mkType (Some Base) (Some "int") (Some 4%Z) None None None in
  let st := mkState 8 [("S", old); ("int", int)] [] None new empty_field false in
  type_name_map (flush_current_data st) = [("S", new); ("int", int)] /\
  dict_keys (type_name_map (flush_current_data st)) = ["S"; "int"].
Proof.
  intros old new int st.
  assert (dict_wf (type_name_map st)) as Hwf
    by by_compute.
  exact (flush_current_data_override st 0 "S" Struct old Hwf
           eq_refl eq_refl eq_refl).
Defined.

Lemma exec_arch_last_wins_witness :
  let st := mkState 8 [] [("int", 16%Z)]
              (Some (BinWriter.mk (replicate 8 Byte.x00) 4 8))
              empty_data empty_field false in
  arch (exec_arch 8 "4" st) = 4%Z /\
  global_string_volume (exec_arch 8 "4" st) = [("int", 16%Z)] /\
  global_string_writer (exec_arch 8 "4" st)
    = Some (BinWriter.mk (replicate 8 Byte.x00) 4 8) /\
  type_name_map (exec_arch 8 "4" st) = [].
Proof. cbv zeta. by apply exec_arch_last_wins. Defined.

Lemma parse_line_words_witness :
  parse_line 8 "size 4" initial_state = exec 8 CSize "4" initial_state.
Proof.
  apply (parse_line_words 8 "size" ["4"] initial_state);
    [|repeat constructor]; by_compute.
Defined.

