(* ===== verification/Merge.v ===== *)
(** * The merge resolver

    The loop over the descriptor files in [parse_reflection_files] of
    [src/merge/merge.py] (lines 57-76 and 187): the files the glob found are
    sorted by modification time, oldest first, and parsed in that order into
    the one table; a file that cannot be read is skipped.

    The file system is an input of the model: a file is its modification
    time and its text, [None] for a file whose [open] or [read] raises. *)

From Stdlib Require Import ZArith String List Lia.
From stdpp Require Import prelude strings sorting.
From S2P Require Import Prelude Dict PyStr BinWriter State Interner Parser.

(** A descriptor file as the program sees it. *)
Record file : Type := mkFile { mtime : Z; text : option string }.

#[export] Instance file_eq_dec : EqDecision file.
Proof. solve_decision. Defined.

(** [sorted(files, key=os.path.getmtime)]: a stable sort, so files of equal
    time keep the order the glob gave them. *)
Fixpoint insert_by_mtime (f : file) (fs : list file) : list file :=
  match fs with
  | [] => [f]
  | g :: fs' =>
      if decide (mtime f <= mtime g)%Z then f :: g :: fs'
      else g :: insert_by_mtime f fs'
  end.

Definition sorted_by_mtime (files : list file) : list file :=
  foldr insert_by_mtime [] files.

Section Merge.
Variable size : Z.

(** The body of the loop for one file (lines 70-187). *)
Definition parse_file (f : file) (st : State) : result State :=
  match text f with
  | None => Ok st
  | Some content => parse_content size content st
  end.

Fixpoint parse_files (files : list file) (st : State) : result State :=
  match files with
  | [] => Ok st
  | f :: files' => st1 <- parse_file f st ;; parse_files files' st1
  end.

(** [parse_reflection_files], given what the glob found. *)
Definition parse_reflection_files (files : list file) (st : State)
  : result State :=
  match files with
  | [] => Ok st
  | _ => parse_files (sorted_by_mtime files) st
  end.

End Merge.

(** The readable files agree on the arch width [a]. *)
Definition file_agrees (a : Z) (f : file) : Prop :=
  match text f with
  | Some content => arch_agrees a (splitlines content)
  | None => True
  end.

#[export] Instance file_agrees_dec a f : Decision (file_agrees a f).
Proof. unfold file_agrees. destruct (text f); apply _. Defined.

(** Three files as the glob may give them: the newest first, and one that
    cannot be read. *)
Definition example_files : list file :=
  [mkFile 20 (Some example_override_text);
   mkFile 10 (Some example_text);
   mkFile 15 None].

(** ** The sort *)

Section Sort.
Implicit Types (f g : file) (fs : list file).

Lemma insert_by_mtime_perm f fs : insert_by_mtime f fs ≡ₚ f :: fs.
Proof.
  induction fs as [|g fs IH]; simpl; [done|].
  case_decide; [done|]. etrans; [apply perm_skip, IH | apply perm_swap].
Qed.

Lemma sorted_by_mtime_perm fs : sorted_by_mtime fs ≡ₚ fs.
Proof.
  induction fs as [|f fs IH]; simpl; [done|].
  etrans; [apply insert_by_mtime_perm | by apply perm_skip].
Qed.

Definition mtime_le f g : Prop := (mtime f <= mtime g)%Z.

Lemma insert_by_mtime_sorted f fs :
  StronglySorted mtime_le fs -> StronglySorted mtime_le (insert_by_mtime f fs).
Proof.
  induction 1 as [|g fs Hs IH Hall]; simpl.
  - apply SSorted_cons; [apply SSorted_nil | apply Forall_nil_2].
  - case_decide as Hle.
    + apply SSorted_cons; [by apply SSorted_cons|].
      apply Forall_cons. split; [done|].
      eapply Forall_impl; [done|]. unfold mtime_le. intros h ?. lia.
    + apply SSorted_cons; [done|].
      eapply Permutation_Forall; [symmetry; apply insert_by_mtime_perm|].
      apply Forall_cons. split; [|done]. unfold mtime_le. lia.
Qed.

Lemma sorted_by_mtime_sorted fs : StronglySorted mtime_le (sorted_by_mtime fs).
Proof.
  induction fs as [|f fs IH]; simpl; [apply SSorted_nil|].
  by apply insert_by_mtime_sorted.
Qed.

(** The files of one modification time keep their order. *)
Lemma insert_by_mtime_filter (t : Z) f fs :
  StronglySorted mtime_le fs ->
  filter (fun g => mtime g = t) (insert_by_mtime f fs) =
  filter (fun g => mtime g = t) (f :: fs).
Proof.
  induction 1 as [|g fs Hs IH Hall]; simpl; [done|].
  case_decide as Hle; [done|].
  rewrite filter_cons, IH, !filter_cons.
  repeat case_decide; try done. lia.
Qed.

Lemma sorted_by_mtime_stable (t : Z) fs :
  filter (fun g => mtime g = t) (sorted_by_mtime fs) =
  filter (fun g => mtime g = t) fs.
Proof.
  induction fs as [|f fs IH]; simpl; [done|].
  rewrite insert_by_mtime_filter by apply sorted_by_mtime_sorted.
  by rewrite !filter_cons, IH.
Qed.
End Sort.

(** ** The loop over the files *)

Section Files.
Variable size : Z.
Implicit Types (st : State) (f : file) (files : list file).

Lemma parse_file_table f st st' :
  parse_file size f st = Ok st' ->
  table_le (type_name_map st) (type_name_map st').
Proof.
  unfold parse_file. destruct (text f); [apply parse_content_table|].
  by intros [= <-].
Qed.

Lemma parse_files_table files st st' :
  parse_files size files st = Ok st' ->
  table_le (type_name_map st) (type_name_map st').
Proof.
  revert st. induction files as [|f files IH]; simpl; intros st H; inv_ok.
  - done.
  - etrans; [by eapply parse_file_table | by apply IH].
Qed.

Lemma inv_parse_files a files st st' :
  a <> (-1)%Z -> Forall (file_agrees a) files ->
  inv a st -> parse_files size files st = Ok st' -> inv a st'.
Proof.
  intros Ha Hag. revert st.
  induction Hag as [|f files Hf Hag IH]; simpl; intros st Hinv H; inv_ok.
  - done.
  - apply (IH a0); [|done]. unfold parse_file, file_agrees in *.
    destruct (text f); [by eapply inv_parse_content | by inv_ok].
Qed.
(** A file that cannot be read changes nothing. *)
Lemma parse_files_readable files st :
  parse_files size files st =
  parse_files size (filter (fun f => is_Some (text f)) files) st.
Proof.
  revert st. induction files as [|f files IH]; intros st; [done|].
  rewrite filter_cons. case_decide as Hf; simpl.
  - destruct (parse_file size f st); simpl; [apply IH | done].
  - unfold parse_file. destruct (text f); [by destruct Hf; eexists|].
    simpl. apply IH.
Qed.

(** What the merge can raise. *)
Lemma parse_files_Raise files st e :
  parse_files size files st = Raise e -> parse_error e.
Proof.
  revert st. induction files as [|f files IH]; intros st H; simpl in H;
    [done|].
  raise_cases; [|eauto]. unfold parse_file in H.
  destruct (text f); [by eapply parse_content_Raise | done].
Qed.

Lemma parse_reflection_files_Raise files st e :
  parse_reflection_files size files st = Raise e -> parse_error e.
Proof.
  unfold parse_reflection_files. destruct files; [done|].
  apply parse_files_Raise.
Qed.

Lemma inv_parse_reflection_files a files st :
  a <> (-1)%Z -> Forall (file_agrees a) files ->
  parse_reflection_files size files initial_state = Ok st -> inv a st.
Proof.
  intros Ha Hag. unfold parse_reflection_files.
  destruct files as [|f files]; [intros [= <-]; apply inv_initial|].
  apply inv_parse_files; [done | | apply inv_initial].
  eapply Permutation_Forall; [|done]. symmetry. apply sorted_by_mtime_perm.
Qed.

(** C3: every state the merge reaches is well formed: from the initial
    state, on files whose [arch] commands all carry the same width, which is
    not -1, [parse_reflection_files] returns a state in which the keys of
    the table are distinct, every record of the table has a kind and is
    keyed by its name, every name of a record or of a field is in the string
    volume, and the volume's dict maps each string to the place where the
    volume's writer holds it. *)
Theorem parse_reflection_files_inv a files st :
  a <> (-1)%Z -> Forall (file_agrees a) files ->
  parse_reflection_files size files initial_state = Ok st -> inv a st.
Proof. apply inv_parse_reflection_files. Qed.

(** C21: the files are parsed oldest first and ties keep the order of the
    glob: [sorted_by_mtime] is a stable sort by modification time. *)
Theorem sorted_by_mtime_stable_sort files :
  sorted_by_mtime files ≡ₚ files /\
  StronglySorted mtime_le (sorted_by_mtime files) /\
  forall t, filter (fun g => mtime g = t) (sorted_by_mtime files)
            = filter (fun g => mtime g = t) files.
Proof.
  split_and!; [apply sorted_by_mtime_perm | apply sorted_by_mtime_sorted|].
  intros t. apply sorted_by_mtime_stable.
Qed.

(** C22: a file that cannot be read is skipped and the merge goes on: the
    result of the loop over the files is the result of the loop over the
    files that can be read. *)
Theorem parse_reflection_files_skips files st :
  files <> [] ->
  parse_reflection_files size files st =
  parse_files size
    (filter (fun f => is_Some (text f)) (sorted_by_mtime files)) st.
Proof.
  intros Hne. unfold parse_reflection_files.
  destruct files; [done | apply parse_files_readable].
Qed.

End Files.

(** ** Examples and witnesses *)


Lemma parse_reflection_files_inv_witness :
  exists st, parse_reflection_files 4096 example_files initial_state = Ok st /\
             inv 8 st.
Proof.
  eexists. split; [by vm_compute|].
  apply (parse_reflection_files_inv 4096 8 example_files);
    [done | by_compute | by vm_compute].
Defined.

Lemma parse_reflection_files_skips_witness :
  parse_reflection_files 4096 example_files initial_state =
  parse_files 4096
    (filter (fun f => is_Some (text f)) (sorted_by_mtime example_files))
    initial_state.
Proof. by apply parse_reflection_files_skips. Defined.
