(* ===== verification/Encoder.v ===== *)
(** * The binary encoder

    The first half of [write_reflection_dat] of [src/merge/merge.py]: the
    identifiers are assigned in the order of the table and the record keyed
    by the empty string is removed (lines 193-197); the records are written
    one after the other, the count of the fields of a record being
    back-patched once its fields are written (lines 215-253).

    The file gives a reference encoding of the table as a run of items in
    which each count comes before its fields, proves that the writes of the
    encoder amount to it, that the encoder fails on a write only when the
    look-ups succeed, and that the identifiers are consecutive and
    stable. *)

From Stdlib Require Import ZArith String List Lia.
From stdpp Require Import prelude strings.
From coqutil Require Import Byte Word.LittleEndianList.
From S2P Require Import Prelude Dict PyStr BinWriter State Interner Parser.

(** ** Identifiers *)

(** The loop of lines 193-196: every record of the table, the one keyed by
    the empty string included, takes the next identifier. *)
Fixpoint assign_ids_from (type_id : Z) (m : dict string TypeData)
  : dict string TypeData :=
  match m with
  | [] => []
  | (name, data) :: m' =>
      (name, set_t_id data type_id) :: assign_ids_from (type_id + 1) m'
  end.

(** Lines 193-197: the identifiers, then [type_name_map.pop("", None)]. *)
Definition assign_ids (m : dict string TypeData) : dict string TypeData :=
  dict_pop (assign_ids_from 1 m) "".

(** [object_types] (line 205), by the value of the ["type"] key. *)
Definition object_types (k : type_kind) : Z :=
  match k with Base => 1 | Struct => 2 | Union => 3 | Enum => 4 end.

(** ** An example table

    The table of [example_text] with a second field, struct-like and of a
    type that is not declared, and the volume of its strings. *)

Definition example_fields : list FieldData :=
  [mkField (Some "x") (Some "int_1") (Some 0%Z) (Some 0%Z) (Some 0%Z)
           (Some false) (Some false) None;
   mkField (Some "y") (Some "missing_t") (Some 8%Z) (Some 0%Z) (Some 0%Z)
           (Some false) (Some true) None].

Definition example_table : dict string TypeData :=
  [("int_1", mkType (Some Base) (Some "int_1") (Some 4%Z) None None None);
   ("struct_1", mkType (Some Struct) (Some "struct_1") (Some 8%Z)
                       (Some example_fields) (Some []) None)].

Definition example_volume : dict string Z :=
  volume_of 8 0 ["int_1"; "struct_1"; "x"; "y"; "missing_t"].

(** A writer of 128 bytes for the arch width 8. *)
Definition example_writer : BinWriter.t :=
  BinWriter.mk (replicate 128 Byte.x00) 0 8.

(** ** The type table *)

Section Encoder.
(** The width of the run, the table and the string volume. *)
Variable arch : Z.
Variable type_name_map : dict string TypeData.
Variable global_string_volume : dict string Z.

(** [global_string_volume[s]] *)
Definition volume_offset (s : string) : result Z :=
  from_key (KeyError s) (dict_get global_string_volume s).

(** [type_name_map[ftype]["id"] if ftype in type_name_map else 0] *)
Definition ref_id (ftype : string) : result Z :=
  match dict_get type_name_map ftype with
  | Some d => from_key (KeyError "id") (t_id d)
  | None => Ok 0%Z
  end.

(** A field of a struct or union is skipped when it is marked struct-like
    and its type is not in the table (line 231). *)
Definition skipped (field : FieldData) : bool :=
  default false (f_struct field) &&
  bool_decide (~ dict_mem type_name_map (default "" (f_type field))).

(** The body of the loop over the fields (lines 230-245) for a struct or a
    union: the writer and the count after the field. *)
Definition write_field (acc : BinWriter.t * Z) (field : FieldData)
  : result (BinWriter.t * Z) :=
  let (writer, field_count) := acc in
  if skipped field then Ok (writer, field_count)
  else
    off <- volume_offset (default "" (f_name field)) ;;
    w <- BinWriter.write_arch_size writer off ;;
    w <- BinWriter.write_bool w (default false (f_const field)) ;;
    w <- BinWriter.write_uint32 w (default 0%Z (f_pdepth field)) ;;
    w <- BinWriter.write_arch_size w (default 0%Z (f_offset field)) ;;
    w <- BinWriter.write_arch_size w (default 0%Z (f_arrsize field)) ;;
    r <- ref_id (default "" (f_type field)) ;;
    w <- BinWriter.write_arch_size w r ;;
    Ok (w, (field_count + 1)%Z).

(** The body of the loop over the fields for an enum (lines 242-245). *)
Definition write_enumerator (acc : BinWriter.t * Z) (field : FieldData)
  : result (BinWriter.t * Z) :=
  let (writer, field_count) := acc in
  off <- volume_offset (default "" (f_name field)) ;;
  w <- BinWriter.write_arch_size writer off ;;
  w <- BinWriter.write_arch_size w (default 0%Z (f_value field)) ;;
  Ok (w, (field_count + 1)%Z).

(** The loop over the fields of one record (line 229). *)
Fixpoint write_fields (is_enum : bool) (fields : list FieldData)
    (acc : BinWriter.t * Z) : result (BinWriter.t * Z) :=
  match fields with
  | [] => Ok acc
  | field :: fields' =>
      acc1 <- (if is_enum then write_enumerator acc field
               else write_field acc field) ;;
      write_fields is_enum fields' acc1
  end.

(** The four writes every record starts with (lines 217-220, 222-225). *)
Definition write_type_header (writer : BinWriter.t) (type_data : TypeData)
    (code : Z) : result BinWriter.t :=
  id <- from_key (KeyError "id") (t_id type_data) ;;
  w <- BinWriter.write_arch_size writer id ;;
  w <- BinWriter.write_uint8 w code ;;
  name <- from_key (KeyError "name") (t_name type_data) ;;
  off <- volume_offset name ;;
  w <- BinWriter.write_arch_size w off ;;
  BinWriter.write_arch_size w (default 0%Z (t_size type_data)).

(** The back-patch of the field count (lines 246-253): the count is packed
    at the offset that was kept, and the cursor stays where it is. *)
Definition patch_count (writer : BinWriter.t) (field_count_offset : nat)
    (field_count : Z) : result BinWriter.t :=
  d <- pack_into (if decide (arch = 8%Z) then fmt_q else fmt_I)
                 (BinWriter.data writer) field_count_offset field_count ;;
  Ok (BinWriter.mk d (BinWriter.offset writer) (BinWriter.arch writer)).

(** The body of the loop over the records (lines 216-253). *)
Definition write_type (writer : BinWriter.t) (type_data : TypeData)
  : result BinWriter.t :=
  kind <- from_key (KeyError "type") (t_type type_data) ;;
  match kind with
  | Base => write_type_header writer type_data 1
  | _ =>
      w <- write_type_header writer type_data (object_types kind) ;;
      let field_count_offset := BinWriter.offset w in
      w <- BinWriter.write_arch_size w 0 ;;
      acc <- write_fields (bool_decide (kind = Enum))
                          (default [] (t_fields type_data)) (w, 0%Z) ;;
      patch_count acc.1 field_count_offset acc.2
  end.

(** The loop over the records (line 215). *)
Fixpoint write_types (types : list TypeData) (writer : BinWriter.t)
  : result BinWriter.t :=
  match types with
  | [] => Ok writer
  | type_data :: types' =>
      w <- write_type writer type_data ;; write_types types' w
  end.

(** ** The reference encoding

    The table as a run of items, the count of a record's fields before the
    fields: what the writes and the back-patch of [write_type] add up to. *)

Definition field_items (field : FieldData) : result (list item) :=
  off <- volume_offset (default "" (f_name field)) ;;
  r <- ref_id (default "" (f_type field)) ;;
  Ok [(WArch, off);
      (WFmt fmt_B, if default false (f_const field) then 1 else 0)%Z;
      (WFmt fmt_I, default 0%Z (f_pdepth field));
      (WArch, default 0%Z (f_offset field));
      (WArch, default 0%Z (f_arrsize field));
      (WArch, r)].

Definition enumerator_items (field : FieldData) : result (list item) :=
  off <- volume_offset (default "" (f_name field)) ;;
  Ok [(WArch, off); (WArch, default 0%Z (f_value field))].

(** The fields that are encoded: all the enumerators of an enum, the fields
    of a struct or union that are not skipped. *)
Definition kept_fields (is_enum : bool) (fields : list FieldData)
  : list FieldData :=
  if is_enum then fields else filter (fun f => ~ skipped f) fields.

Fixpoint fields_items (is_enum : bool) (fields : list FieldData)
  : result (list item) :=
  match fields with
  | [] => Ok []
  | field :: fields' =>
      i <- (if is_enum then enumerator_items field else field_items field) ;;
      rest <- fields_items is_enum fields' ;;
      Ok (i ++ rest)
  end.

Definition header_items (type_data : TypeData) (code : Z)
  : result (list item) :=
  id <- from_key (KeyError "id") (t_id type_data) ;;
  name <- from_key (KeyError "name") (t_name type_data) ;;
  off <- volume_offset name ;;
  Ok [(WArch, id); (WFmt fmt_B, code); (WArch, off);
      (WArch, default 0%Z (t_size type_data))].

Definition type_items (type_data : TypeData) : result (list item) :=
  kind <- from_key (KeyError "type") (t_type type_data) ;;
  match kind with
  | Base => header_items type_data 1
  | _ =>
      h <- header_items type_data (object_types kind) ;;
      let kept := kept_fields (bool_decide (kind = Enum))
                              (default [] (t_fields type_data)) in
      fs <- fields_items (bool_decide (kind = Enum)) kept ;;
      Ok (h ++ (WArch, Z.of_nat (length kept)) :: fs)
  end.

Fixpoint types_items (types : list TypeData) : result (list item) :=
  match types with
  | [] => Ok []
  | type_data :: types' =>
      i <- type_items type_data ;;
      rest <- types_items types' ;;
      Ok (i ++ rest)
  end.

(** The bytes one encoded field takes: two arch-wide values for an
    enumerator; four arch-wide values, a byte and four bytes for a field of a
    struct or union. *)
Definition entry_size (is_enum : bool) : nat :=
  let n := calcsize (BinWriter.arch_format arch) in
  if is_enum then 2 * n else 4 * n + 5.

(** What the look-ups of the encoder need: every record of the table has
    an identifier; a record to encode has an identifier, a kind and a name
    that is in the volume, and the names of its fields are in the volume. *)
Definition ids_assigned : Prop :=
  Forall (fun kd => is_Some (t_id kd.2)) type_name_map.

Definition field_encodable (field : FieldData) : Prop :=
  dict_mem global_string_volume (default "" (f_name field)).

Definition record_encodable (type_data : TypeData) : Prop :=
  is_Some (t_id type_data) /\ is_Some (t_type type_data) /\
  (exists n, t_name type_data = Some n /\ dict_mem global_string_volume n) /\
  Forall field_encodable (default [] (t_fields type_data)).

(** ** The writes of a record are its items *)

Implicit Types (w : BinWriter.t) (c : Z) (f : FieldData) (is_enum : bool).

Lemma write_field_Ok w c f w' c' :
  write_field (w, c) f = Ok (w', c') <->
  if skipped f then w' = w /\ c' = c
  else exists items, field_items f = Ok items /\
         write_items items w = Ok w' /\ c' = (c + 1)%Z.
Proof.
  unfold write_field, field_items, BinWriter.write_bool.
  destruct (skipped f); [split; [by intros [= -> ->] | by intros [-> ->]]|].
  split.
  - intros H. inv_ok. rewrite_ok. eexists. split_and!; [done| |done].
    simpl. unfold write_item. simpl. by rewrite_ok.
  - intros (items & Hi & Hw & ->). inv_ok. simpl in Hw.
    unfold write_item in Hw. simpl in Hw. inv_ok. by rewrite_ok.
Qed.

Lemma write_enumerator_Ok w c f w' c' :
  write_enumerator (w, c) f = Ok (w', c') <->
  exists items, enumerator_items f = Ok items /\
    write_items items w = Ok w' /\ c' = (c + 1)%Z.
Proof.
  unfold write_enumerator, enumerator_items. split.
  - intros H. inv_ok. rewrite_ok. eexists. split_and!; [done| |done].
    simpl. unfold write_item. simpl. by rewrite_ok.
  - intros (items & Hi & Hw & ->). inv_ok. simpl in Hw.
    unfold write_item in Hw. simpl in Hw. inv_ok. by rewrite_ok.
Qed.

Lemma kept_fields_cons is_enum f fields :
  kept_fields is_enum (f :: fields) =
  if negb is_enum && skipped f then kept_fields is_enum fields
  else f :: kept_fields is_enum fields.
Proof.
  unfold kept_fields. destruct is_enum; simpl; [done|].
  rewrite filter_cons. destruct (skipped f); by case_decide.
Qed.

(** One turn of the loop over the fields. *)
Lemma write_fields_step is_enum w c f w' c' :
  (if is_enum then write_enumerator (w, c) f else write_field (w, c) f)
    = Ok (w', c') <->
  (if negb is_enum && skipped f then w' = w /\ c' = c
   else exists items,
          (if is_enum then enumerator_items f else field_items f) = Ok items /\
          write_items items w = Ok w' /\ c' = (c + 1)%Z).
Proof.
  destruct is_enum; simpl; [apply write_enumerator_Ok | apply write_field_Ok].
Qed.

(** The loop over the fields writes the items of the fields that are kept
    and counts them. *)
Lemma write_fields_Ok is_enum fields w c w' c' :
  write_fields is_enum fields (w, c) = Ok (w', c') <->
  exists items,
    fields_items is_enum (kept_fields is_enum fields) = Ok items /\
    write_items items w = Ok w' /\
    c' = (c + Z.of_nat (length (kept_fields is_enum fields)))%Z.
Proof.
  revert w c. induction fields as [|f fields IH]; intros w c.
  - assert (kept_fields is_enum [] = []) as -> by by destruct is_enum.
    simpl. split.
    + intros [= -> ->]. exists []. split_and!; [done..|lia].
    + intros (items & [= <-] & [= ->] & ->). do 2 f_equal. lia.
  - cbn [write_fields]. rewrite kept_fields_cons. split.
    + intros H. inv_ok. destruct a as [w1 c1].
      apply write_fields_step in Ha. apply IH in H as (rest & Hr & Hw & ->).
      destruct (negb is_enum && skipped f); [destruct Ha as [-> ->]; eauto|].
      destruct Ha as (i & Hi & Hwi & ->). exists (i ++ rest).
      cbn [fields_items length]. rewrite Hi, Hr, write_items_app, Hwi. simpl.
      split_and!; [done..|lia].
    + intros (items & Hi & Hw & ->).
      destruct (negb is_enum && skipped f) eqn:Hs.
      * rewrite (proj2 (write_fields_step is_enum w c f w c))
          by (by rewrite Hs).
        simpl. apply IH. eauto.
      * cbn [fields_items length] in *. inv_ok.
        rewrite write_items_app in Hw. inv_ok.
        rewrite (proj2 (write_fields_step is_enum w c f a1 (c + 1)%Z))
          by (rewrite Hs; eauto).
        simpl. apply IH. eexists. split_and!; [done..|lia].
Qed.

Lemma fields_items_length is_enum fields items :
  fields_items is_enum fields = Ok items ->
  length (pack_items arch items) = length fields * entry_size is_enum.
Proof.
  revert items. induction fields as [|f fields IH]; intros items H; simpl in *.
  - by inv_ok.
  - inv_ok. rewrite pack_items_app, length_app, (IH _ Ha0).
    unfold entry_size, field_items, enumerator_items in *.
    destruct is_enum; inv_ok; cbn [pack_items width_format fst snd];
      rewrite ?length_app, ?length_le_split; simpl; lia.
Qed.

(** C13: the count of a record is the number of the fields that are
    encoded: from a count of zero, the loop over the fields returns the
    number of the fields that are kept (every enumerator of an enum; of a
    struct or union, the fields that are not struct-like with a type that
    is no key of the table), and the cursor has moved by as many entries. *)
Theorem write_fields_count is_enum fields w w' c :
  BinWriter.wf w -> BinWriter.arch w = arch ->
  write_fields is_enum fields (w, 0%Z) = Ok (w', c) ->
  c = Z.of_nat (length (kept_fields is_enum fields)) /\
  BinWriter.offset w' =
    BinWriter.offset w +
    length (kept_fields is_enum fields) * entry_size is_enum.
Proof.
  intros Hwf Harch (items & Hi & Hw & ->)%write_fields_Ok.
  apply write_items_spec in Hw as (_ & _ & _ & -> & _); [|done].
  rewrite Harch, (fields_items_length _ _ _ Hi). split; [lia|done].
Qed.

Lemma write_type_header_Ok w (t : TypeData) code w' :
  write_type_header w t code = Ok w' <->
  exists items, header_items t code = Ok items /\ write_items items w = Ok w'.
Proof.
  unfold write_type_header, header_items. split.
  - intros H. inv_ok. rewrite_ok. eexists. split; [done|].
    simpl. unfold write_item. simpl. by rewrite_ok.
  - intros (items & Hi & Hw). inv_ok. simpl in Hw.
    unfold write_item in Hw. simpl in Hw. inv_ok. by rewrite_ok.
Qed.

Lemma patch_count_Ok w off v w' :
  patch_count w off v = Ok w' <->
  off + calcsize (BinWriter.arch_format arch) <= BinWriter.capacity w /\
  in_range (BinWriter.arch_format arch) v /\
  w' = BinWriter.mk
         (splice (BinWriter.data w) off
                 (le_split (calcsize (BinWriter.arch_format arch)) v))
         (BinWriter.offset w) (BinWriter.arch w).
Proof.
  unfold patch_count, BinWriter.capacity.
  change (if decide (arch = 8%Z) then fmt_q else fmt_I)
    with (BinWriter.arch_format arch).
  split.
  - intros H. inv_ok. by apply pack_into_Ok in Ha as (? & ? & ->).
  - intros (? & ? & ->).
    by rewrite (proj2 (pack_into_Ok _ _ _ _ _) (conj H (conj H0 eq_refl))).
Qed.

(** A record with fields: the header, the placeholder, the fields and the
    back-patch write the header, the count of the fields that are kept, and
    these fields. *)
Lemma write_object_Ok w (t : TypeData) code is_enum w' :
  BinWriter.wf w -> BinWriter.arch w = arch ->
  (w1 <- write_type_header w t code ;;
   w2 <- BinWriter.write_arch_size w1 0 ;;
   acc <- write_fields is_enum (default [] (t_fields t)) (w2, 0%Z) ;;
   patch_count acc.1 (BinWriter.offset w1) acc.2) = Ok w' <->
  exists items,
    (h <- header_items t code ;;
     fs <- fields_items is_enum
             (kept_fields is_enum (default [] (t_fields t))) ;;
     Ok (h ++ (WArch, Z.of_nat (length (kept_fields is_enum
                                          (default [] (t_fields t))))) :: fs))
      = Ok items /\
    write_items items w = Ok w'.
Proof.
  intros Hwf Harch. split.
  - intros H. inv_ok. destruct a1 as [w3 c].
    apply write_type_header_Ok in Ha as (h & Hh & Hw1).
    apply write_fields_Ok in Ha1 as (fs & Hfs & Hw3 & ->).
    apply patch_count_Ok in H as (_ & Hc & ->).
    destruct (write_items_spec _ _ _ Hwf Hw1) as (Hwf1 & _ & Ha1 & _).
    rewrite Hh, Hfs. simpl. eexists. split; [done|].
    rewrite write_items_app, Hw1. simpl.
    apply write_items_patch; [done|]. exists w3.
    rewrite Ha1, Harch. split_and!; [|done..].
    simpl. unfold write_item. simpl. by rewrite Ha0.
  - intros (items & Hi & Hw). inv_ok.
    rewrite write_items_app in Hw. inv_ok.
    destruct (write_items_spec _ _ _ Hwf Ha1) as (Hwf1 & _ & Harch1 & _).
    rewrite (proj2 (write_type_header_Ok w t code a1)) by eauto. simpl.
    apply write_items_patch in Hw as (w3 & Hw3 & Hc & ->); [|done].
    simpl in Hw3. unfold write_item in Hw3. simpl in Hw3. inv_ok. rewrite_ok.
    rewrite (proj2 (write_fields_Ok is_enum _ a2 0%Z w3 _)) by eauto. simpl.
    rewrite BinWriter.write_arch_size_eq in Ha2.
    apply write_fmt_spec in Ha2 as (Hwf2 & Hcap2 & _ & Hoff2 & _); [|done].
    apply write_items_spec in Hw3 as (_ & Hcap & _); [|done].
    apply patch_count_Ok. rewrite Z.add_0_l, Harch1, Harch in *.
    unfold BinWriter.wf in Hwf2. split_and!; [lia|done..].
Qed.

Lemma write_type_Ok w (t : TypeData) w' :
  BinWriter.wf w -> BinWriter.arch w = arch ->
  write_type w t = Ok w' <->
  exists items, type_items t = Ok items /\ write_items items w = Ok w'.
Proof.
  intros Hwf Harch. unfold write_type, type_items.
  destruct (t_type t) as [[]|]; simpl;
    [apply write_type_header_Ok | by apply write_object_Ok..|].
  split; [done | by intros (? & ? & ?)].
Qed.

(** The loop over the records returns exactly when the reference encoding
    exists and can be written. *)
Lemma write_types_Ok types w w' :
  BinWriter.wf w -> BinWriter.arch w = arch ->
  write_types types w = Ok w' <->
  exists items, types_items types = Ok items /\ write_items items w = Ok w'.
Proof.
  revert w. induction types as [|t types IH]; intros w Hwf Harch; simpl.
  - split; [intros [= ->]; by exists [] | by intros (? & [= <-] & [= ->])].
  - split.
    + intros H. inv_ok. apply write_type_Ok in Ha as (i & Hi & Hwi); [|done..].
      destruct (write_items_spec _ _ _ Hwf Hwi) as (Hwf1 & _ & Ha1 & _).
      apply IH in H as (rest & Hr & Hwr); [|done|congruence].
      exists (i ++ rest). by rewrite Hi, Hr, write_items_app, Hwi.
    + intros (items & Hi & Hw). inv_ok. rewrite write_items_app in Hw. inv_ok.
      destruct (write_items_spec _ _ _ Hwf Ha1) as (Hwf1 & _ & Harch1 & _).
      rewrite (proj2 (write_type_Ok w t a1 Hwf Harch)) by eauto. simpl.
      apply IH; [done|congruence|eauto].
Qed.

(** C2: the type table the encoder writes, with its placeholders and
    back-patches, is the reference encoding: when [write_types] returns, the
    records have an encoding as a run of items in which each count stands
    before its fields, every item fits its format, and the bytes written
    are the bytes that were there followed by the packed items. *)
Theorem write_types_refines types w w' :
  BinWriter.wf w -> BinWriter.arch w = arch ->
  write_types types w = Ok w' ->
  exists items,
    types_items types = Ok items /\ Forall (item_ok arch) items /\
    BinWriter.written w' = BinWriter.written w ++ pack_items arch items /\
    BinWriter.offset w' = BinWriter.offset w + length (pack_items arch items).
Proof.
  intros Hwf Harch (items & Hi & Hw)%write_types_Ok; [|done..].
  exists items. pose proof Hw as (Hall & _)%write_items_Ok; [|done].
  apply write_items_spec in Hw as (_ & _ & _ & Hoff & Hwr); [|done].
  by rewrite <- Harch.
Qed.

(** C17: the encoder returns whenever it can: if the records have a
    reference encoding, every item of it fits its format and the bytes fit
    the buffer, [write_types] returns the writer that holds them. *)
Theorem write_types_total types w items :
  BinWriter.wf w -> BinWriter.arch w = arch ->
  types_items types = Ok items -> Forall (item_ok arch) items ->
  BinWriter.offset w + length (pack_items arch items) <= BinWriter.capacity w ->
  write_types types w = Ok (BinWriter.put w (pack_items arch items)).
Proof.
  intros Hwf Harch Hi Hall Hfit. apply write_types_Ok; [done..|].
  exists items. split; [done|]. apply write_items_Ok; [done|].
  by rewrite Harch.
Qed.

(** ** The errors of the encoder

    When the records have a reference encoding, every look-up of the
    encoder finds its key, and what is left to fail is a write. *)

Lemma write_fields_step_Raise is_enum w c f e :
  (negb is_enum && skipped f = false ->
   is_ok (if is_enum then enumerator_items f else field_items f)) ->
  (if is_enum then write_enumerator (w, c) f else write_field (w, c) f)
    = Raise e ->
  write_error e.
Proof.
  unfold write_enumerator, enumerator_items, write_field, field_items.
  destruct is_enum; simpl; [|destruct (skipped f); [by intros _ [=]|]];
    intros Hok H; specialize (Hok eq_refl);
    apply is_ok_Ok in Hok as (items & Hi);
    inv_ok; rewrite_ok; raise_cases; write_raises.
Qed.

Lemma write_fields_Raise is_enum fields w c items e :
  fields_items is_enum (kept_fields is_enum fields) = Ok items ->
  write_fields is_enum fields (w, c) = Raise e -> write_error e.
Proof.
  revert w c items. induction fields as [|f fields IH]; intros w c items Hi H;
    cbn [write_fields] in H; [done|].
  rewrite kept_fields_cons in Hi. raise_cases.
  - eapply write_fields_step_Raise; [|done]. intros Hs. rewrite Hs in Hi.
    simpl in Hi. inv_ok. apply is_ok_Ok. eauto.
  - destruct a as [w1 c1]. destruct (negb is_enum && skipped f); [eauto|].
    simpl in Hi. inv_ok. eauto.
Qed.

Lemma write_type_header_Raise w (t : TypeData) code items e :
  header_items t code = Ok items ->
  write_type_header w t code = Raise e -> write_error e.
Proof.
  unfold write_type_header, header_items. intros Hi H. inv_ok.
  rewrite_ok_in H. raise_cases; write_raises.
Qed.

Lemma patch_count_Raise w off v e :
  patch_count w off v = Raise e -> write_error e.
Proof.
  unfold patch_count. intros H. raise_cases. by eapply pack_into_Raise.
Qed.

Lemma write_type_Raise w (t : TypeData) items e :
  type_items t = Ok items -> write_type w t = Raise e -> write_error e.
Proof.
  unfold write_type, type_items. intros Hi H. inv_ok. rewrite_ok_in H.
  destruct a; [by eapply write_type_header_Raise|..]; inv_ok; raise_cases;
    first [ by eapply write_type_header_Raise
          | by eapply write_fields_Raise
          | by eapply patch_count_Raise
          | write_raises ].
Qed.

(** The encoder fails on a write only. *)
Lemma write_types_Raise types w items e :
  types_items types = Ok items -> write_types types w = Raise e ->
  write_error e.
Proof.
  revert w items. induction types as [|t types IH]; intros w items Hi H;
    simpl in *; [done|].
  inv_ok. raise_cases; [by eapply write_type_Raise | eauto].
Qed.

(** ** The look-ups of the encoder succeed *)

Lemma ref_id_is_ok ftype : ids_assigned -> exists r, ref_id ftype = Ok r.
Proof.
  unfold ref_id, ids_assigned. rewrite Forall_forall. intros Hids.
  destruct (dict_get type_name_map ftype) as [d|] eqn:E; [|eauto].
  apply dict_get_Some_elem_of, Hids in E as [r Hr]. simpl in Hr.
  rewrite Hr. eauto.
Qed.

Lemma volume_offset_is_ok s :
  dict_mem global_string_volume s -> exists o, volume_offset s = Ok o.
Proof. unfold volume_offset. intros [o ->]. eauto. Qed.

Lemma fields_items_is_ok is_enum fields :
  ids_assigned -> Forall field_encodable fields ->
  exists items, fields_items is_enum fields = Ok items.
Proof.
  intros Hids. induction 1 as [|f fields Hf _ [rest IH]]; simpl; [eauto|].
  destruct (volume_offset_is_ok _ Hf) as [o Ho].
  destruct (ref_id_is_ok (default "" (f_type f)) Hids) as [r Hr].
  unfold enumerator_items, field_items. rewrite Ho, Hr, IH.
  destruct is_enum; simpl; eauto.
Qed.

Lemma kept_fields_Forall (P : FieldData -> Prop) is_enum fields :
  Forall P fields -> Forall P (kept_fields is_enum fields).
Proof.
  unfold kept_fields. destruct is_enum; [done|]. apply Forall_filter.
Qed.

Lemma type_items_is_ok (t : TypeData) :
  ids_assigned -> record_encodable t -> exists items, type_items t = Ok items.
Proof.
  intros Hids ([id Hid] & [k Hk] & (n & Hn & Hm) & Hf).
  destruct (volume_offset_is_ok _ Hm) as [o Ho].
  unfold type_items, header_items. rewrite Hid, Hk, Hn. simpl. rewrite Ho.
  destruct k; simpl; [eauto|..];
    match goal with
    | |- context [fields_items ?e ?fs] =>
        destruct (fields_items_is_ok e fs Hids) as [items ->];
          [first [done | by apply (kept_fields_Forall _ false)]
          | simpl; eauto]
    end.
Qed.

Lemma types_items_is_ok types :
  ids_assigned -> Forall record_encodable types ->
  exists items, types_items types = Ok items.
Proof.
  intros Hids. induction 1 as [|t types Ht _ [rest IH]]; simpl; [eauto|].
  destruct (type_items_is_ok t Hids Ht) as [i ->]. rewrite IH. simpl. eauto.
Qed.

End Encoder.

(** ** The identifiers *)

Section Ids.
Implicit Types (m : dict string TypeData) (n : Z) (k : string) (d : TypeData).

Lemma assign_ids_from_keys n m : dict_keys (assign_ids_from n m) = dict_keys m.
Proof.
  unfold dict_keys. revert n.
  induction m as [|[k d] m IH]; intros n; simpl; [done|]. f_equal. apply IH.
Qed.

Lemma assign_ids_from_length n m : length (assign_ids_from n m) = length m.
Proof.
  revert n. induction m as [|[k d] m IH]; intros n; simpl; [done|].
  by rewrite IH.
Qed.

Lemma assign_ids_from_app n m1 m2 :
  assign_ids_from n (m1 ++ m2) =
  assign_ids_from n m1 ++ assign_ids_from (n + Z.of_nat (length m1)) m2.
Proof.
  revert n. induction m1 as [|[k d] m1 IH]; intros n; simpl.
  - by rewrite Z.add_0_r.
  - rewrite IH. do 3 f_equal. lia.
Qed.

(** The identifiers the loop hands out are consecutive. *)
Lemma assign_ids_from_ids n m :
  t_id <$> dict_values (assign_ids_from n m) =
  Some <$> seqZ n (Z.of_nat (length m)).
Proof.
  unfold dict_values. revert n.
  induction m as [|[k d] m IH]; intros n; [done|].
  cbn [assign_ids_from length]. rewrite Nat2Z.inj_succ, seqZ_cons by lia.
  rewrite !fmap_cons, IH, Z.pred_succ. done.
Qed.

(** The record at position [i] takes the identifier [n + i]. *)
Lemma assign_ids_from_lookup n m (i : nat) k d :
  m !! i = Some (k, d) ->
  assign_ids_from n m !! i = Some (k, set_t_id d (n + Z.of_nat i)).
Proof.
  revert n i. induction m as [|[k' d'] m IH]; intros n [|i] Hi; try done.
  - injection Hi as -> ->. simpl. by rewrite Z.add_0_r.
  - simpl in *. rewrite (IH _ _ Hi). do 3 f_equal. lia.
Qed.

Lemma assign_ids_from_wf n m : dict_wf m -> dict_wf (assign_ids_from n m).
Proof. unfold dict_wf. by rewrite assign_ids_from_keys. Qed.

(** Looking a name up after the identifiers are assigned. *)
Lemma assign_ids_from_get n m (i : nat) k d :
  dict_wf m -> m !! i = Some (k, d) ->
  dict_get (assign_ids_from n m) k = Some (set_t_id d (n + Z.of_nat i)).
Proof.
  intros Hwf Hi. apply dict_get_elem_of; [by apply assign_ids_from_wf|].
  eapply list_elem_of_lookup_2, assign_ids_from_lookup, Hi.
Qed.

Lemma assign_ids_from_Forall (P Q : string * TypeData -> Prop) n m :
  (forall k d v, P (k, d) -> Q (k, set_t_id d v)) ->
  Forall P m -> Forall Q (assign_ids_from n m).
Proof.
  intros HPQ Hall. revert n.
  induction Hall as [|[k d] m HP _ IH]; intros n; simpl; constructor; auto.
Qed.

Lemma assign_ids_Forall (P Q : string * TypeData -> Prop) m :
  (forall k d v, P (k, d) -> Q (k, set_t_id d v)) ->
  Forall P m -> Forall Q (assign_ids m).
Proof. intros. by eapply dict_pop_Forall, assign_ids_from_Forall. Qed.

Lemma assign_ids_from_lookup_inv n m (i : nat) k d :
  assign_ids_from n m !! i = Some (k, d) ->
  exists d0, m !! i = Some (k, d0) /\ d = set_t_id d0 (n + Z.of_nat i).
Proof.
  intros Hi. assert (dict_keys m !! i = Some k) as (d0 & Hd0)%dict_keys_lookup.
  { rewrite <- (assign_ids_from_keys n). apply dict_keys_lookup. eauto. }
  exists d0. split; [done|].
  rewrite (assign_ids_from_lookup n _ _ _ _ Hd0) in Hi. congruence.
Qed.

Lemma assign_ids_get m k :
  k <> "" -> dict_get (assign_ids m) k = dict_get (assign_ids_from 1 m) k.
Proof. intros Hk. by apply dict_pop_get_diff. Qed.

(** C7: the identifiers are 1, 2, ... in the order of the table: when no
    record is keyed by the empty string, [assign_ids] keeps every key where
    it is and the records carry the identifiers from 1 to the number of
    records, in this order. *)
Theorem assign_ids_sequential m :
  "" ∉ dict_keys m ->
  dict_keys (assign_ids m) = dict_keys m /\
  t_id <$> dict_values (assign_ids m) = Some <$> seqZ 1 (Z.of_nat (length m)).
Proof.
  intros Hk. unfold assign_ids. rewrite dict_pop_absent.
  - split; [apply assign_ids_from_keys | apply assign_ids_from_ids].
  - by rewrite dict_mem_keys, assign_ids_from_keys.
Qed.

(** C30: a record keyed by the empty string takes an identifier before it
    is removed: the identifiers of the records that stay are 1 to the
    number of records before it, then they go on two above this number, so
    that the identifier the removed record took appears nowhere and the
    last identifier exceeds the number of records of the output. *)
Theorem assign_ids_gap m1 d m2 :
  dict_wf (m1 ++ ("", d) :: m2) ->
  t_id <$> dict_values (assign_ids (m1 ++ ("", d) :: m2)) =
  Some <$> (seqZ 1 (Z.of_nat (length m1)) ++
            seqZ (Z.of_nat (length m1) + 2) (Z.of_nat (length m2))).
Proof.
  intros Hwf. unfold assign_ids, dict_values.
  rewrite assign_ids_from_app. cbn [assign_ids_from]. rewrite dict_pop_app.
  - rewrite !fmap_app. fold (dict_values (assign_ids_from 1 m1)).
    fold (dict_values (assign_ids_from (1 + Z.of_nat (length m1) + 1) m2)).
    rewrite !assign_ids_from_ids. do 3 f_equal. lia.
  - rewrite assign_ids_from_keys. unfold dict_wf, dict_keys in *.
    rewrite fmap_app in Hwf. apply NoDup_app in Hwf as (_ & Hd & _).
    intros Hin. apply (Hd _ Hin). simpl. left.
Qed.

(** A record keeps its identifier when the table grows: if the keys of [m]
    are where they were in [m'], a name that has an identifier in [m] has
    the same identifier in [m']. *)
Lemma assign_ids_get_le m m' k d :
  dict_wf m -> table_le m m' -> k <> "" ->
  dict_get (assign_ids m) k = Some d ->
  exists d', dict_get (assign_ids m') k = Some d' /\ t_id d' = t_id d.
Proof.
  intros Hwf [Hpre Hwf'] Hk Hd. rewrite assign_ids_get in * by done.
  apply dict_get_elem_of in Hd; [|by apply assign_ids_from_wf].
  apply list_elem_of_lookup_1 in Hd as (i & Hi).
  apply assign_ids_from_lookup_inv in Hi as (d0 & Hi & ->).
  assert (dict_keys m' !! i = Some k) as (d1 & Hd1)%dict_keys_lookup.
  { eapply prefix_lookup_Some; [|done]. apply dict_keys_lookup. eauto. }
  eexists. split; [apply assign_ids_from_get; eauto|done].
Qed.

(** C12: a reference resolves to the identifier of the record with this
    name: after the identifiers are assigned, [ref_id] of the name at
    position [i] of the table is [1 + i], and it is 0, the sentinel, for the
    empty name and for a name that is no key of the table. *)
Theorem ref_id_resolves m k :
  dict_wf m ->
  (forall (i : nat) d, k <> "" -> m !! i = Some (k, d) ->
     ref_id (assign_ids m) k = Ok (1 + Z.of_nat i)%Z) /\
  (k = "" \/ ~ dict_mem m k -> ref_id (assign_ids m) k = Ok 0%Z).
Proof.
  intros Hwf. unfold ref_id. split.
  - intros i d Hk Hi.
    by rewrite assign_ids_get, (assign_ids_from_get 1 m i k d).
  - intros Hk. assert (dict_get (assign_ids m) k = None) as ->; [|done].
    destruct (decide (k = "")) as [->|Hne].
    + by apply dict_pop_get_same, assign_ids_from_wf.
    + rewrite assign_ids_get by done. destruct Hk as [?|Hk]; [done|].
      apply dict_get_None. rewrite assign_ids_from_keys.
      by rewrite <- dict_mem_keys.
Qed.

End Ids.

(** ** Witnesses *)

Lemma write_types_refines_witness :
  let m := assign_ids example_table in
  exists w',
    write_types 8 m example_volume (dict_values m) example_writer = Ok w' /\
    exists items,
      types_items m example_volume (dict_values m) = Ok items /\
      Forall (item_ok 8) items /\
      BinWriter.written w'
        = BinWriter.written example_writer ++ pack_items 8 items /\
      BinWriter.offset w'
        = BinWriter.offset example_writer + length (pack_items 8 items).
Proof.
  intros m. eexists. split; [by vm_compute|].
  apply (write_types_refines 8 m example_volume);
    [by_compute | done | by vm_compute].
Defined.

Lemma write_types_total_witness :
  let m := assign_ids example_table in
  exists items,
    types_items m example_volume (dict_values m) = Ok items /\
    write_types 8 m example_volume (dict_values m) example_writer
      = Ok (BinWriter.put example_writer (pack_items 8 items)).
Proof.
  intros m. eexists. split; [by vm_compute|].
  apply (write_types_total 8 m example_volume);
    [by_compute | done | by vm_compute | by_compute | by_compute].
Defined.

Lemma write_fields_count_witness :
  let m := assign_ids example_table in
  exists w',
    write_fields m example_volume false example_fields (example_writer, 0%Z)
      = Ok (w', 1%Z) /\
    1%Z = Z.of_nat (length (kept_fields m false example_fields)) /\
    BinWriter.offset w' =
      BinWriter.offset example_writer +
      length (kept_fields m false example_fields) * entry_size 8 false.
Proof.
  intros m. eexists. split; [by vm_compute|].
  apply (write_fields_count 8 m example_volume);
    [by_compute | done | by vm_compute].
Defined.

Lemma assign_ids_sequential_witness :
  dict_keys (assign_ids example_table) = dict_keys example_table /\
  t_id <$> dict_values (assign_ids example_table)
    = Some <$> seqZ 1 (Z.of_nat (length example_table)).
Proof. apply assign_ids_sequential. by_compute. Defined.

Lemma assign_ids_gap_witness :
  let d := new_data Base in
  t_id <$> dict_values (assign_ids ([("a", d)] ++ ("", d) :: [("b", d)]))
  = Some <$> (seqZ 1 (Z.of_nat 1) ++ seqZ (Z.of_nat 1 + 2) (Z.of_nat 1)).
Proof. intros d. apply (assign_ids_gap [("a", d)] d [("b", d)]). by_compute. Defined.

Lemma ref_id_resolves_witness :
  (forall (i : nat) d, "struct_1" <> "" ->
     example_table !! i = Some ("struct_1", d) ->
     ref_id (assign_ids example_table) "struct_1" = Ok (1 + Z.of_nat i)%Z) /\
  ("struct_1" = "" \/ ~ dict_mem example_table "struct_1" ->
   ref_id (assign_ids example_table) "struct_1" = Ok 0%Z).
Proof. apply ref_id_resolves. by_compute. Defined.
