(* ===== verification/Output.v ===== *)
(** * The output file and the program

    [write_reflection_dat] of [src/merge/merge.py] (lines 190-258) up to the
    bytes of [reflection.dat], and [main] (lines 292-304): the merge of the
    descriptor files followed by the encoding of the table.

    The theorems give the layout of the file (a header of two arch-wide
    offsets, the string volume, the count of the records and the records),
    show that every name offset of the file leads to its string, and that
    from a state the parser can reach the encoder fails on a write or on
    the size of a buffer only, never on a look-up. *)

From Stdlib Require Import ZArith String List Lia.
From stdpp Require Import prelude strings.
From coqutil Require Import Byte Word.LittleEndianList.
From S2P Require Import Prelude Dict PyStr BinWriter State Interner Parser.
From S2P Require Import Merge Encoder.

Section Output.
(** The size of the two large buffers; the program uses [BUFFER_SIZE]. *)
Variable size : Z.

(** [write_reflection_dat], up to the bytes of [reflection.dat] (lines
    190-258): the header, the string volume and the type table. *)
Definition write_reflection_dat (st : State) : result bytes :=
  let types := assign_ids (type_name_map st) in
  let arch := State.arch st in
  writer <- BinWriter.init size arch ;;
  head_writer <- BinWriter.init (arch * 2) arch ;;
  head_writer <- BinWriter.write_arch_size head_writer (arch * 2) ;;
  string_writer <- from_key (NameError "global_string_writer")
                            (global_string_writer st) ;;
  head_writer <- BinWriter.write_arch_size head_writer
    (arch * 2 + Z.of_nat (BinWriter.offset string_writer)) ;;
  writer <- BinWriter.write_arch_size writer (Z.of_nat (length types)) ;;
  writer <- write_types arch types (global_string_volume st)
                        (dict_values types) writer ;;
  Ok (BinWriter.written head_writer ++ BinWriter.written string_writer
      ++ BinWriter.written writer).

(** [main] (lines 292-304), given the command line and the files the glob
    finds under its first argument: the bytes of [reflection.dat]. *)
Definition main (argv : list string) (files : list file) : result bytes :=
  if decide (length argv > 2) then
    st <- parse_reflection_files size files initial_state ;;
    write_reflection_dat st
  else Raise MissingArguments.

End Output.

(** The size of the two large buffers (lines 110 and 204). *)
Definition BUFFER_SIZE : Z := 1000000.

(** The errors [write_reflection_dat] is left with on a state the parser
    can reach: a write that fails, or a buffer of negative size. *)
Definition output_error (e : pyerror) : Prop :=
  write_error e \/ e = ValueError.

(** The bytes of the header for the arch width [a] and a volume of [n]
    bytes. *)
Definition header_bytes (a : Z) (n : nat) : bytes :=
  pack_items a [(WArch, a * 2); (WArch, a * 2 + Z.of_nat n)]%Z.

(** ** Example states *)

(** The state after [example_text] is parsed; the command line of a run. *)
Definition example_state : State :=
  match parse_content 4096 example_text initial_state with
  | Ok st => st
  | Raise _ => initial_state
  end.

Definition example_enum_state : State :=
  match parse_content 4096 example_enum_text initial_state with
  | Ok st => st
  | Raise _ => initial_state
  end.

Definition example_argv : list string := ["merge.py"; "build"; "out"].

(** ** Lemmas *)

Section OutputLemmas.
Variable size : Z.
Implicit Types (st : State) (a : Z) (w : BinWriter.t) (e : pyerror).

(** The table of a state the parser can reach can be encoded once the
    identifiers are assigned. *)
Lemma inv_encodable a st :
  inv a st ->
  ids_assigned (assign_ids (type_name_map st)) /\
  Forall (record_encodable (global_string_volume st))
         (dict_values (assign_ids (type_name_map st))).
Proof.
  intros [_ (Hm & _) _ _]. split.
  - eapply assign_ids_Forall; [|exact Hm]. simpl. eauto.
  - apply Forall_fmap. eapply assign_ids_Forall; [|exact Hm].
    intros k d v (Hn & Ht & Hdn & Hf). simpl in *.
    split_and!; [eauto | done | eauto |].
    eapply Forall_impl; [exact Hf|]. intros f (n & Hfn & ?).
    unfold field_encodable. by rewrite Hfn.
Qed.

(** The header: two arch-wide values written to a buffer of twice the arch
    width. *)
Lemma header_written a w0 x y w1 w2 :
  BinWriter.init (a * 2) a = Ok w0 ->
  BinWriter.write_arch_size w0 x = Ok w1 ->
  BinWriter.write_arch_size w1 y = Ok w2 ->
  BinWriter.written w2 = pack_items a [(WArch, x); (WArch, y)].
Proof.
  intros Hi H1 H2.
  apply (write_items_init _ _ [(WArch, x); (WArch, y)] _ w2) in Hi; [tauto|].
  simpl. unfold write_item. simpl. rewrite H1. simpl. by rewrite H2.
Qed.

(** The table: the count, then the records. *)
Lemma table_written a m vol types c w0 w1 w2 :
  BinWriter.init size a = Ok w0 ->
  BinWriter.write_arch_size w0 c = Ok w1 ->
  write_types a m vol types w1 = Ok w2 ->
  exists items,
    types_items m vol types = Ok items /\
    Forall (item_ok a) ((WArch, c) :: items) /\
    BinWriter.written w2 = pack_items a ((WArch, c) :: items) /\
    length (pack_items a ((WArch, c) :: items)) <= Z.to_nat size.
Proof.
  intros Hi H1 H2. rewrite write_arch_size_item in H1.
  pose proof (init_spec _ _ _ Hi) as (Hwf0 & _ & Ha0 & _).
  destruct (write_items_spec _ _ _ Hwf0 H1) as (Hwf1 & _ & Ha1 & _).
  apply write_types_Ok in H2 as (items & Hitems & H2); [|done|congruence].
  exists items. split; [done|].
  apply (write_items_init _ _ ([(WArch, c)] ++ items) _ w2) in Hi;
    [tauto | by rewrite write_items_app, H1].
Qed.

(** The bytes of the file, for any arch width. *)
Lemma write_reflection_dat_Ok a st out :
  inv a st -> write_reflection_dat size st = Ok out ->
  exists w items,
    global_string_writer st = Some w /\ arch st = a /\
    types_items (assign_ids (type_name_map st)) (global_string_volume st)
                (dict_values (assign_ids (type_name_map st))) = Ok items /\
    Forall (item_ok a)
           ((WArch, Z.of_nat (length (assign_ids (type_name_map st))))
              :: items) /\
    out = header_bytes a (length (BinWriter.written w))
          ++ BinWriter.written w
          ++ pack_items a
               ((WArch, Z.of_nat (length (assign_ids (type_name_map st))))
                  :: items).
Proof.
  intros [[_ Hv] _ _ Ha] H. unfold write_reflection_dat in H. inv_ok.
  rewrite Ha3 in Hv, Ha. destruct Hv as (Hwf & _). rewrite Ha in *.
  destruct (table_written _ _ _ _ _ _ _ _ Ha0 Ha5 Ha6)
    as (items & Hi & Hall & Hw & _).
  exists a3, items. split_and!; [done..|].
  by rewrite (header_written _ _ _ _ _ _ Ha1 Ha2 Ha4), Hw, written_length.
Qed.

Lemma calcsize_arch_format a :
  a = 4%Z \/ a = 8%Z -> calcsize (BinWriter.arch_format a) = Z.to_nat a.
Proof. by intros [-> | ->]. Qed.

Lemma header_bytes_length a n :
  a = 4%Z \/ a = 8%Z -> length (header_bytes a n) = Z.to_nat (a * 2).
Proof.
  intros Ha. unfold header_bytes. simpl.
  rewrite !length_app, !length_le_split, calcsize_arch_format by done.
  simpl. lia.
Qed.

Lemma pack_items_arch a c items :
  a = 4%Z \/ a = 8%Z ->
  pack_items a ((WArch, c) :: items) = le_split (Z.to_nat a) c ++ pack_items a items.
Proof. intros Ha. simpl. by rewrite calcsize_arch_format. Qed.

(** The volume of a state the parser can reach, and its writer. *)
Lemma inv_volume a st w :
  inv a st -> global_string_writer st = Some w ->
  BinWriter.written w = volume_bytes (dict_keys (global_string_volume st)).
Proof. intros [[_ Hv] _ _ _] Hw. rewrite Hw in Hv. tauto. Qed.

(** C1: the layout of [reflection.dat] for the arch widths 4 and 8: two
    arch-wide words, the string volume, the arch-wide count of the records
    and the records in the reference encoding; the first word of the header
    is the offset of the volume in the file and the second is the offset
    of the count. *)
Theorem write_reflection_dat_layout a st out :
  inv a st -> a = 4%Z \/ a = 8%Z -> write_reflection_dat size st = Ok out ->
  let n := Z.to_nat a in
  let vol := volume_bytes (dict_keys (global_string_volume st)) in
  let types := assign_ids (type_name_map st) in
  exists items table,
    types_items types (global_string_volume st) (dict_values types)
      = Ok items /\
    table = le_split n (Z.of_nat (length types)) ++ pack_items a items /\
    out = le_split n (a * 2)
          ++ le_split n (a * 2 + Z.of_nat (length vol)) ++ vol ++ table /\
    drop (Z.to_nat (a * 2)) out = vol ++ table /\
    drop (Z.to_nat (a * 2 + Z.of_nat (length vol))) out = table.
Proof.
  intros Hinv Ha (w & items & Hw & _ & Hi & _ & ->)%(write_reflection_dat_Ok a);
    [|done].
  pose proof (header_bytes_length a (length (BinWriter.written w)) Ha) as Hl.
  rewrite (inv_volume a st w) in * by done. cbv zeta.
  rewrite (pack_items_arch _ _ items) by done.
  eexists items, _. split_and!; [done | done | ..].
  - unfold header_bytes. rewrite !pack_items_arch by done.
    by rewrite <- !app_assoc.
  - by rewrite drop_app_length'.
  - rewrite app_assoc, drop_app_length'; [done|]. rewrite length_app. lia.
Qed.

(** C8: every offset of the string volume leads to its string: in the
    file written for the arch width 4 or 8, the offset the volume gives a
    string is the number of bytes before an occurrence of the string that a
    zero byte ends. *)
Theorem name_offset_resolves a st out s o :
  inv a st -> a = 4%Z \/ a = 8%Z -> write_reflection_dat size st = Ok out ->
  dict_get (global_string_volume st) s = Some o ->
  exists pre post,
    out = pre ++ list_byte_of_string s ++ Byte.x00 :: post /\
    o = Z.of_nat (length pre).
Proof.
  intros Hinv Ha (w & items & Hw & Harch & _ & _ & ->)%(write_reflection_dat_Ok a)
    Hs; [|done].
  destruct (vol_ok_string_at st w s o) as (pre & post & Hv & ->);
    [apply Hinv | done | lia | done |].
  pose proof (header_bytes_length a (length (BinWriter.written w)) Ha) as Hl.
  set (header := header_bytes _ _) in *. set (table := pack_items _ _).
  exists (header ++ pre), (post ++ table). rewrite Hv, <- !app_assoc.
  split; [done|]. by rewrite length_app, Hl, Harch.
Qed.

(** The header can be allocated only after an [arch] command. *)
Lemma inv_writer a st w0 :
  inv a st -> BinWriter.init (arch st * 2) (arch st) = Ok w0 ->
  is_Some (global_string_writer st).
Proof.
  intros [_ _ _ Ha] [Hs _]%init_Ok.
  destruct (global_string_writer st); [done | lia].
Qed.

(** What the encoder can raise from a state the parser can reach. *)
Lemma write_reflection_dat_Raise a st e :
  inv a st -> write_reflection_dat size st = Raise e -> output_error e.
Proof.
  intros Hinv H. unfold write_reflection_dat, output_error in *.
  destruct (inv_encodable a st Hinv) as [Hids Hrec].
  destruct (types_items_is_ok _ _ _ Hids Hrec) as [items Hitems].
  raise_cases;
    try (destruct (inv_writer a st _ Hinv Ha0) as [w Hw];
         rewrite Hw in *; simpl in * );
    first [ done
          | right; by eapply init_Raise
          | left; by eapply write_types_Raise
          | left; write_raises ].
Qed.

(** C11: the encoder never fails on a look-up: from a state the parser can
    reach, [write_reflection_dat] raises only when a write fails (no room
    in a buffer, or a value its format rejects) or when a buffer has a
    negative size; no name, key or identifier is missing. *)
Theorem write_reflection_dat_safe a st e :
  inv a st -> write_reflection_dat size st = Raise e -> output_error e.
Proof. apply write_reflection_dat_Raise. Qed.

(** C4: the errors of a run: on descriptor files whose [arch] commands
    all carry the same width, [main] stops only for a missing argument, for
    a string command that comes before any [arch] command, for a buffer
    that is full or of negative size, or for a value that its format
    rejects; it never stops for a missing key. *)
Theorem main_safe a argv files e :
  a <> (-1)%Z -> Forall (file_agrees a) files ->
  main size argv files = Raise e ->
  e = MissingArguments \/ parse_error e \/ output_error e.
Proof.
  intros Ha Hag. unfold main. case_decide as Hargs; [|intros [= <-]; auto].
  intros H. raise_cases.
  - right. left. by eapply parse_reflection_files_Raise.
  - right. right. eapply write_reflection_dat_Raise; [|done].
    by eapply inv_parse_reflection_files.
Qed.

(** A new writer takes every run of items that fit. *)
Lemma init_write_items sz a items :
  (0 <= sz)%Z -> Forall (item_ok a) items ->
  length (pack_items a items) <= Z.to_nat sz ->
  exists w0 w, BinWriter.init sz a = Ok w0 /\ write_items items w0 = Ok w /\
    BinWriter.wf w0 /\ BinWriter.arch w0 = a.
Proof.
  intros Hs Hall Hfit.
  destruct (BinWriter.init sz a) as [w0|e] eqn:Hi;
    [|unfold BinWriter.init in Hi; case_decide; [lia|done]].
  pose proof (init_spec _ _ _ Hi) as (Hwf & Ho & Ha & _ & Hc).
  exists w0, (BinWriter.put w0 (pack_items a items)).
  split_and!; [done| |done..]. apply write_items_Ok; [done|].
  rewrite Ha, Ho, Hc. split_and!; [done | lia | done].
Qed.

(** C16: the encoder returns when everything fits: from a state the
    parser has reached with the arch width 4 or 8, if every value of the
    reference encoding fits its format, the table fits its buffer and the
    offset of the table fits the arch width, [write_reflection_dat]
    returns the bytes of the file. *)
Theorem write_reflection_dat_total a st w items :
  inv a st -> a = 4%Z \/ a = 8%Z -> (0 <= size)%Z ->
  global_string_writer st = Some w ->
  types_items (assign_ids (type_name_map st)) (global_string_volume st)
              (dict_values (assign_ids (type_name_map st))) = Ok items ->
  Forall (item_ok a)
    ((WArch, Z.of_nat (length (assign_ids (type_name_map st)))) :: items) ->
  length (pack_items a
    ((WArch, Z.of_nat (length (assign_ids (type_name_map st)))) :: items))
    <= Z.to_nat size ->
  in_range (BinWriter.arch_format a) (a * 2 + Z.of_nat (BinWriter.offset w)) ->
  is_ok (write_reflection_dat size st).
Proof.
  intros Hinv Ha Hsize Hw Hi Hall Hfit Hoff.
  assert (arch st = a) as Harch.
  { destruct Hinv as [_ _ _ H]. by rewrite Hw in H. }
  destruct (init_write_items size a _ Hsize Hall Hfit)
    as (w0 & w2 & Hw0 & Hw2 & Hwf0 & Ha0).
  destruct (init_write_items (a * 2) a
              [(WArch, a * 2); (WArch, a * 2 + Z.of_nat (BinWriter.offset w))]%Z)
    as (h0 & h2 & Hh0 & Hh2 & _); [lia | | |].
  { repeat constructor; [|done]. by destruct Ha as [-> | ->]; vm_compute. }
  { simpl. rewrite !length_app, !length_le_split, calcsize_arch_format by done.
    simpl. lia. }
  change (_ :: items) with ([(WArch, Z.of_nat (length (assign_ids
    (type_name_map st))))] ++ items) in Hw2.
  rewrite write_items_app in Hw2.
  apply bind_Ok_inv in Hw2 as (w1 & Hw1 & Hw2).
  destruct (write_items_spec _ _ _ Hwf0 Hw1) as (Hwf1 & _ & Ha1 & _).
  rewrite <- write_arch_size_item in Hw1.
  simpl in Hh2. unfold write_item in Hh2. simpl in Hh2.
  apply bind_Ok_inv in Hh2 as (h1 & Hh1 & Hh2). inv_ok.
  assert (write_types (arch st) (assign_ids (type_name_map st))
            (global_string_volume st)
            (dict_values (assign_ids (type_name_map st))) w1 = Ok w2) as Ht.
  { apply write_types_Ok; [done | congruence | eauto]. }
  unfold write_reflection_dat. rewrite Hw. by rewrite_ok.
Qed.

(** C6: identifiers are stable under the merge of further files: a
    record that has an identifier for the table of [st] has the same
    identifier for the table after any files are parsed from [st], whether
    they declare new records or declare this one again. *)
Theorem merge_keeps_ids files st st' k d :
  dict_wf (type_name_map st) -> k <> "" ->
  parse_files size files st = Ok st' ->
  dict_get (assign_ids (type_name_map st)) k = Some d ->
  exists d', dict_get (assign_ids (type_name_map st')) k = Some d' /\
             t_id d' = t_id d.
Proof.
  intros Hwf Hk Hp Hd. eapply assign_ids_get_le; [done | | done..].
  by eapply parse_files_table.
Qed.

(** C34: [main] needs its two arguments: with fewer than two arguments
    after the program name it raises before any file is read. *)
Theorem main_missing_arguments argv files :
  length argv <= 2 -> main size argv files = Raise MissingArguments.
Proof. intros H. unfold main. rewrite decide_False; [done | lia]. Qed.

(** C32: with no descriptor file the program does not stop after its
    message: [parse_reflection_files] returns with the arch width still -1
    and the encoder raises [ValueError] when it allocates a header of -2
    bytes. *)
Theorem main_no_files argv :
  (0 <= size)%Z -> length argv > 2 -> main size argv [] = Raise ValueError.
Proof.
  intros Hs Ha. unfold main. rewrite decide_True by done. simpl.
  unfold write_reflection_dat, BinWriter.init. simpl.
  by rewrite decide_False by lia.
Qed.

End OutputLemmas.

(** ** Examples and witnesses *)

Lemma inv_example_state : inv 8 example_state.
Proof.
  apply (inv_parse_content 4096 8 example_text initial_state);
    [done | by_compute | apply inv_initial | by vm_compute].
Qed.

Lemma inv_example_enum_state : inv 4 example_enum_state.
Proof.
  apply (inv_parse_content 4096 4 example_enum_text initial_state);
    [done | by_compute | apply inv_initial | by vm_compute].
Qed.


Lemma write_reflection_dat_layout_witness :
  exists out table,
    write_reflection_dat 4096 example_state = Ok out /\
    drop 16 out = volume_bytes ["int_1"; "struct_1"; "x"] ++ table /\
    drop 33 out = table.
Proof.
  destruct (write_reflection_dat 4096 example_state) as [out|] eqn:E;
    [|by vm_compute in E].
  destruct (write_reflection_dat_layout 4096 8 example_state out
              inv_example_state (or_intror eq_refl) E)
    as (items & table & _ & _ & _ & H1 & H2).
  exists out, table. split; [done|]. split; [exact H1 | exact H2].
Defined.

Lemma name_offset_resolves_witness :
  exists out pre post,
    write_reflection_dat 4096 example_state = Ok out /\
    out = pre ++ list_byte_of_string "struct_1" ++ Byte.x00 :: post /\
    22%Z = Z.of_nat (length pre).
Proof.
  destruct (write_reflection_dat 4096 example_state) as [out|] eqn:E;
    [|by vm_compute in E].
  assert (dict_get (global_string_volume example_state) "struct_1"
          = Some 22%Z) as Hs by by vm_compute.
  destruct (name_offset_resolves 4096 8 example_state out "struct_1" 22
              inv_example_state (or_intror eq_refl) E Hs)
    as (pre & post & H1 & H2).
  exists out, pre, post. split; [reflexivity|]. split; [exact H1 | exact H2].
Defined.

Lemma write_reflection_dat_safe_witness : output_error StructError.
Proof.
  apply (write_reflection_dat_safe 4096 4 example_enum_state StructError
           inv_example_enum_state).
  by vm_compute.
Defined.

Lemma write_reflection_dat_total_witness :
  is_ok (write_reflection_dat 4096 example_state).
Proof.
  eapply (write_reflection_dat_total 4096 8 example_state);
    [ apply inv_example_state | by right | done | by vm_compute
    | by vm_compute | by_compute | by_compute | by_compute ].
Defined.

Lemma merge_keeps_ids_witness :
  exists st' d',
    parse_files 4096 [mkFile 20 (Some example_override_text)] example_state
      = Ok st' /\
    dict_get (assign_ids (type_name_map st')) "struct_1" = Some d' /\
    t_size d' = Some 16%Z /\ t_id d' = Some 2%Z.
Proof.
  destruct (parse_files 4096 [mkFile 20 (Some example_override_text)]
              example_state) as [st'|] eqn:E; [|by vm_compute in E].
  edestruct (merge_keeps_ids 4096 _ example_state st' "struct_1" _
               ltac:(by_compute) ltac:(done) E ltac:(by vm_compute))
    as (d' & H1 & H2).
  exists st', d'. split_and!; [done | done | | exact H2].
  vm_compute in E. injection E as <-. vm_compute in H1. by injection H1 as <-.
Defined.

Lemma main_missing_arguments_witness :
  main 4096 ["merge.py"; "build"] [] = Raise MissingArguments.
Proof. apply main_missing_arguments. simpl. lia. Defined.

Lemma main_no_files_witness : main 4096 example_argv [] = Raise ValueError.
Proof. apply main_no_files; [lia | simpl; lia]. Defined.

Lemma main_safe_witness :
  StructError = MissingArguments \/ parse_error StructError \/
  output_error StructError.
Proof.
  apply (main_safe 4096 4 example_argv [mkFile 0 (Some example_enum_text)]);
    [done | by_compute | by vm_compute].
Defined.

(** ** Runs that the invariant excludes or that surprise *)




