(* ===== verification/Asm.v ===== *)
(** * The assembly mirror

    The second half of [write_reflection_dat] of [src/merge/merge.py] (lines
    260-289): the bytes of [reflection.dat] written once more as the text of
    [reflection.dat.S], a read-only data section between the labels
    [_reflection_dat_start] and [_reflection_dat_end] in which [.byte]
    directives carry the bytes in hexadecimal, twelve to a line.

    The file models the text, gives a reader of the byte values of an
    assembly text, and proves that the text carries exactly the bytes of
    the binary file, in their order. *)

From Stdlib Require Import ZArith String Ascii List Lia.
From stdpp Require Import prelude strings.
From coqutil Require Import Byte.
From S2P Require Import Prelude Dict PyStr BinWriter State Interner Parser.
From S2P Require Import Merge Encoder Output.

(** ** The text *)

(** A line feed and a double quote. *)
Definition nl : string := String "010" "".
Definition dquote : string := String "034" "".

(** The digit of a value below 16 in [format(_, "x")]. *)
Definition hex_digit (n : nat) : ascii :=
  match n with
  | 0 => "0" | 1 => "1" | 2 => "2" | 3 => "3" | 4 => "4" | 5 => "5"
  | 6 => "6" | 7 => "7" | 8 => "8" | 9 => "9" | 10 => "a" | 11 => "b"
  | 12 => "c" | 13 => "d" | 14 => "e" | _ => "f"
  end%char.

(** [f"0x{byte:02x}"] (line 279) *)
Definition hex2 (b : byte) : string :=
  let n := Z.to_nat (byte.unsigned b) in
  String "0" (String "x" (String (hex_digit (n / 16))
                                 (String (hex_digit (n mod 16)) ""))).

(** The loop over the bytes (lines 276-281), from the index [i], for data
    of [n] bytes in all. *)
Fixpoint asm_data (i n : nat) (full_data : bytes) : string :=
  match full_data with
  | [] => ""
  | b :: rest =>
      (if decide (i mod 12 = 0) then nl +:+ "    .byte " else "") +:+
      hex2 b +:+
      (if decide (i mod 12 <> 11 /\ i <> n - 1) then ", " else "") +:+
      asm_data (S i) n rest
  end.

(** What is written before the bytes (lines 262-272). *)
Definition asm_prologue : string :=
  "#ifdef __APPLE__" +:+ nl +:+
  "    .section __TEXT,__const" +:+ nl +:+
  "#elif defined(_WIN32)" +:+ nl +:+
  "    .section .rdata" +:+ nl +:+
  "#else" +:+ nl +:+
  "    .section .rodata" +:+ nl +:+
  "#endif" +:+ nl +:+ nl +:+
  "    .global _reflection_dat_start" +:+ nl +:+
  "    .global _reflection_dat_end" +:+ nl +:+
  "_reflection_dat_start:" +:+ nl.

(** What is written after the bytes (lines 283-289). *)
Definition asm_epilogue : string :=
  nl +:+ "_reflection_dat_end:" +:+ nl +:+
  nl +:+ "#ifdef __GNUC__" +:+ nl +:+
  nl +:+ "#ifndef __APPLE__" +:+ nl +:+
  "    .section .note.GNU-stack," +:+ dquote +:+ dquote +:+ ",@progbits"
    +:+ nl +:+
  "#endif" +:+ nl +:+
  "#endif" +:+ nl.

(** The text of [reflection.dat.S] for the bytes [full_data] (lines
    261-289). *)
Definition asm_text (full_data : bytes) : string :=
  asm_prologue +:+ asm_data 0 (length full_data) full_data +:+ asm_epilogue.

Section Asm.
Variable size : Z.

(** The two files [write_reflection_dat] writes: the bytes of
    [reflection.dat] and the text of [reflection.dat.S]. *)
Definition write_reflection_files (st : State) : result (bytes * string) :=
  full_data <- write_reflection_dat size st ;;
  Ok (full_data, asm_text full_data).

End Asm.

(** ** Reading the bytes of an assembly text *)

Definition hex_value (c : ascii) : option Z :=
  let n := nat_of_ascii c in
  if decide (48 <= n <= 57) then Some (Z.of_nat n - 48)%Z
  else if decide (97 <= n <= 102) then Some (Z.of_nat n - 87)%Z
  else None.

(** The values of the hexadecimal literals [0x..] of two digits in [s], in
    their order. *)
Fixpoint asm_read (s : string) : bytes :=
  match s with
  | "" => []
  | String c0 rest0 =>
      match rest0 with
      | String c1 (String h (String l rest)) =>
          if bool_decide (c0 = "0"%char /\ c1 = "x"%char) then
            match hex_value h, hex_value l with
            | Some a, Some b => byte.of_Z (16 * a + b) :: asm_read rest
            | _, _ => asm_read rest0
            end
          else asm_read rest0
      | _ => asm_read rest0
      end
  end.

(** No character of [s] is the digit 0. *)
Fixpoint zero_free (s : string) : bool :=
  match s with
  | "" => true
  | String c s' => bool_decide (c <> "0"%char) && zero_free s'
  end.

(** ** Lemmas *)

Section Read.
Implicit Types (s p : string) (c : ascii) (b : byte) (data : bytes).

Lemma append_cons c p s : String c p +:+ s = String c (p +:+ s).
Proof. done. Qed.

Lemma append_assoc p s1 s2 : (p +:+ s1) +:+ s2 = p +:+ (s1 +:+ s2).
Proof.
  induction p as [|c p IH]; [done|]. rewrite !append_cons. by rewrite IH.
Qed.

(** A character other than the digit 0 starts no literal. *)
Lemma asm_read_skip c s : c <> "0"%char -> asm_read (String c s) = asm_read s.
Proof.
  intros Hc. destruct s as [|c1 [|h [|l rest]]]; try done.
  cbn [asm_read]. rewrite bool_decide_eq_false_2; [done | tauto].
Qed.

Lemma asm_read_zero_free p s :
  zero_free p = true -> asm_read (p +:+ s) = asm_read s.
Proof.
  induction p as [|c p IH]; [done|]. cbn [zero_free].
  intros [Hc Hp]%andb_prop. rewrite append_cons, asm_read_skip; [auto|].
  by apply bool_decide_eq_true_1 in Hc.
Qed.

Lemma hex_value_digit (n : nat) :
  n < 16 -> hex_value (hex_digit n) = Some (Z.of_nat n).
Proof.
  intros Hn. do 16 (destruct n as [|n]; [done|]). lia.
Qed.

(** A literal is read as the byte it was printed from. *)
Lemma asm_read_hex2 b s : asm_read (hex2 b +:+ s) = b :: asm_read s.
Proof.
  pose proof (byte.unsigned_range b) as Hb. unfold hex2.
  set (n := Z.to_nat (byte.unsigned b)). pose proof (Nat.div_mod_eq n 16).
  rewrite !append_cons. cbn [asm_read].
  rewrite bool_decide_eq_true_2 by done.
  rewrite !hex_value_digit;
    [|apply Nat.mod_upper_bound; lia | apply Nat.Div0.div_lt_upper_bound; lia].
  f_equal. rewrite <- (byte.of_Z_unsigned b). f_equal. lia.
Qed.

(** The loop over the bytes prints the bytes. *)
Lemma asm_read_data i n data s :
  asm_read (asm_data i n data +:+ s) = data ++ asm_read s.
Proof.
  revert i. induction data as [|b data IH]; intros i; [done|].
  cbn [asm_data]. rewrite !append_assoc.
  rewrite asm_read_zero_free by (by case_decide).
  rewrite asm_read_hex2, asm_read_zero_free by (by case_decide).
  by rewrite IH.
Qed.

Lemma asm_read_nil p : zero_free p = true -> asm_read p = [].
Proof.
  induction p as [|c p IH]; [done|]. cbn [zero_free].
  intros [Hc Hp]%andb_prop. rewrite asm_read_skip; [auto|].
  by apply bool_decide_eq_true_1 in Hc.
Qed.

(** The values of the hexadecimal literals of [asm_text data], read in
    their order, are the bytes of [data]. *)
Lemma asm_read_text data : asm_read (asm_text data) = data.
Proof.
  unfold asm_text. rewrite asm_read_zero_free by done.
  rewrite asm_read_data, asm_read_nil by done. apply app_nil_r.
Qed.

End Read.

Section Mirror.
Variable size : Z.

(** C14: the assembly file mirrors the binary file: when
    [write_reflection_dat] returns, the two files it writes hold the same
    bytes: the values of the hexadecimal literals of [reflection.dat.S],
    read in their order, are the bytes of [reflection.dat]. *)
Theorem write_reflection_files_mirror st out text :
  write_reflection_files size st = Ok (out, text) ->
  write_reflection_dat size st = Ok out /\ asm_read text = out.
Proof.
  unfold write_reflection_files. intros H. inv_ok.
  split; [done | apply asm_read_text].
Qed.

End Mirror.

(** ** Examples and witnesses *)


Lemma write_reflection_files_mirror_witness :
  exists out text,
    write_reflection_files 4096 example_state = Ok (out, text) /\
    write_reflection_dat 4096 example_state = Ok out /\ asm_read text = out.
Proof.
  destruct (write_reflection_files 4096 example_state) as [[out text]|] eqn:E;
    [|by vm_compute in E].
  exists out, text. split; [reflexivity|].
  exact (write_reflection_files_mirror 4096 example_state out text E).
Defined.
